(** * The in-memory user store of go-api-example (store/memory.go, store/user.go)

    A shallow embedding of [MemoryUserStore] and its five methods, and the
    properties of the store's contract proved about it.

    Go's [int] is modelled at its 64-bit width (its size on amd64 and
    arm64), as a [Z] with the wrap-around of [nextID++] written out.  [map[int]User] is a finite map
    [gmap Z User].  Each method runs its whole body under the store's
    mutex, so a method is one atomic state transformer: it takes the store
    before the call and returns the store after it with the values the Go
    method returns. *)

From Stdlib Require Import ZArith String List Lia Sorted.
From stdpp Require Import gmap strings list fin_maps sorting.

Local Open Scope Z_scope.
#[local] Set Warnings "-clear-no-such-hyp".

(** ** Go's [int] *)

Module GoInt.

Definition bits : Z := 64.
Definition modulus : Z := 2 ^ bits.
Definition min_int : Z := - 2 ^ (bits - 1).
Definition max_int : Z := 2 ^ (bits - 1) - 1.

Definition in_range (z : Z) : Prop := min_int <= z <= max_int.

(** The value an [int] computation denotes: the mathematical result
    reduced to the two's-complement range. *)
Definition wrap (z : Z) : Z := (z - min_int) mod modulus + min_int.

(** [x++] *)
Definition incr (z : Z) : Z := wrap (z + 1).

End GoInt.

(** ** store/user.go *)

Record User : Type := mkUser {
  ID : Z;
  Name : string;
  Email : string
}.

#[global] Instance User_eq_dec : EqDecision User.
Proof. solve_decision. Defined.

(** [user.ID = id] on a [User] passed by value *)
Definition set_ID (user : User) (id : Z) : User :=
  {| ID := id; Name := Name user; Email := Email user |}.

(** ** store/memory.go *)

(** The [mutex] field guards the other two and carries no data of its own. *)
Record MemoryUserStore : Type := mkStore {
  users : gmap Z User;
  nextID : Z
}.

(** [errors.New(text)] *)
Inductive error : Type := errorString (text : string).

Definition ErrNotFound : error := errorString "user not found".

(** A Go result pair [(v, err)]: the value with a nil error, or a nil value
    with the error. *)
Inductive result (A : Type) : Type :=
| Ok (v : A)
| Err (e : error).
Arguments Ok {A} v.
Arguments Err {A} e.

Definition NewMemoryUserStore : MemoryUserStore :=
  {| users := ∅; nextID := 1 |}.

(** [for _, user := range m { users = append(users, user) }], over the
    entries in the order the [range] statement happens to present them *)
Definition collect (entries : list (Z * User)) : list User :=
  fold_left (fun users (entry : Z * User) => users ++ [entry.2]) entries [].

(** Go leaves the iteration order of [range] over a map unspecified: every
    entry is presented once, in some order. *)
Definition range_of (m : gmap Z User) (entries : list (Z * User)) : Prop :=
  entries ≡ₚ map_to_list m.

(** [GetAll], given the order in which [range m.users] presents the map *)
Definition GetAll (m : MemoryUserStore) (entries : list (Z * User))
  : MemoryUserStore * result (list User) :=
  (m, Ok (collect entries)).

Definition GetByID (m : MemoryUserStore) (id : Z)
  : MemoryUserStore * result User :=
  match users m !! id with
  | None => (m, Err ErrNotFound)
  | Some user => (m, Ok user)
  end.

Definition Create (m : MemoryUserStore) (user : User)
  : MemoryUserStore * result User :=
  let user := set_ID user (nextID m) in
  let m := {| users := users m; nextID := GoInt.incr (nextID m) |} in
  let m := {| users := <[ID user := user]> (users m); nextID := nextID m |} in
  (m, Ok user).

Definition Update (m : MemoryUserStore) (id : Z) (user : User)
  : MemoryUserStore * result User :=
  match users m !! id with
  | None => (m, Err ErrNotFound)
  | Some _ =>
      let user := set_ID user id in
      let m := {| users := <[id := user]> (users m); nextID := nextID m |} in
      (m, Ok user)
  end.

Definition Delete (m : MemoryUserStore) (id : Z)
  : MemoryUserStore * result unit :=
  match users m !! id with
  | None => (m, Err ErrNotFound)
  | Some _ =>
      ({| users := delete id (users m); nextID := nextID m |}, Ok tt)
  end.

(** ** Runs of the store

    A caller sees the store through calls and their replies.  A run is a
    sequence of calls, each a step of the store; the only freedom in a step
    is the order in which [GetAll] meets the entries of the map. *)

Inductive Op : Type :=
| OpGetAll
| OpGetByID (id : Z)
| OpCreate (user : User)
| OpUpdate (id : Z) (user : User)
| OpDelete (id : Z).

Inductive Reply : Type :=
| ReplyUsers (r : result (list User))
| ReplyUser (r : result User)
| ReplyUnit (r : result unit).

Inductive step (m : MemoryUserStore) : Op -> Reply -> MemoryUserStore -> Prop :=
| step_GetAll entries :
    range_of (users m) entries ->
    step m OpGetAll (ReplyUsers (GetAll m entries).2) (GetAll m entries).1
| step_GetByID id :
    step m (OpGetByID id) (ReplyUser (GetByID m id).2) (GetByID m id).1
| step_Create user :
    step m (OpCreate user) (ReplyUser (Create m user).2) (Create m user).1
| step_Update id user :
    step m (OpUpdate id user) (ReplyUser (Update m id user).2) (Update m id user).1
| step_Delete id :
    step m (OpDelete id) (ReplyUnit (Delete m id).2) (Delete m id).1.

Inductive run : MemoryUserStore -> list (Op * Reply) -> MemoryUserStore -> Prop :=
| run_nil m : run m [] m
| run_cons m o r m1 tr m2 :
    step m o r m1 -> run m1 tr m2 -> run m ((o, r) :: tr) m2.

(** One call, with [range] presenting the map in the order of
    [map_to_list], and a sequence of calls from a given store: the run it
    makes and the store it leaves. *)
Definition call (m : MemoryUserStore) (o : Op) : MemoryUserStore * Reply :=
  match o with
  | OpGetAll =>
      let out := GetAll m (map_to_list (users m)) in (out.1, ReplyUsers out.2)
  | OpGetByID id => let out := GetByID m id in (out.1, ReplyUser out.2)
  | OpCreate user => let out := Create m user in (out.1, ReplyUser out.2)
  | OpUpdate id user => let out := Update m id user in (out.1, ReplyUser out.2)
  | OpDelete id => let out := Delete m id in (out.1, ReplyUnit out.2)
  end.

Fixpoint play (m : MemoryUserStore) (ops : list Op)
  : list (Op * Reply) * MemoryUserStore :=
  match ops with
  | [] => ([], m)
  | o :: ops =>
      let (m1, r) := call m o in
      let (tr, m2) := play m1 ops in
      ((o, r) :: tr, m2)
  end.

(** [k] rounds of creating a record in an empty store whose counter stands
    at [n] and deleting it again, with the replies the store gives. *)
Fixpoint churn (user : User) (n : Z) (k : nat) : list (Op * Reply) :=
  match k with
  | O => []
  | S k =>
      (OpCreate user, ReplyUser (Ok (set_ID user n)))
      :: (OpDelete n, ReplyUnit (Ok tt))
      :: churn user (GoInt.incr n) k
  end.

(** The id a call is about, for the calls that name one. *)
Definition op_id (o : Op) : option Z :=
  match o with
  | OpGetByID id | OpUpdate id _ | OpDelete id => Some id
  | OpGetAll | OpCreate _ => None
  end.

(** The id a call handed out, when the call is a [Create]. *)
Definition created_id (call : Op * Reply) : option Z :=
  match call with
  | (OpCreate _, ReplyUser (Ok user)) => Some (ID user)
  | _ => None
  end.

(** The ids returned by the [Create] calls of a run, in call order. *)
Definition created_ids (tr : list (Op * Reply)) : list Z :=
  omap created_id tr.

(** The number of [Create] calls of a run. *)
Definition creates (tr : list (Op * Reply)) : Z :=
  Z.of_nat (length (created_ids tr)).

(** The id a call removed, when the call is a [Delete] that succeeded. *)
Definition deleted_id (call : Op * Reply) : option Z :=
  match call with
  | (OpDelete id, ReplyUnit (Ok _)) => Some id
  | _ => None
  end.

Definition deleted_ids (tr : list (Op * Reply)) : list Z :=
  omap deleted_id tr.

(** Every key lies between 1 and the counter, and a record sits under its
    own id. *)
Definition key_consistent (m : MemoryUserStore) : Prop :=
  forall k user, users m !! k = Some user -> 1 <= k < nextID m /\ ID user = k.

(** The two records cmd/api-server/main.go seeds the store with. *)
Definition john : User :=
  {| ID := 0; Name := "John Doe"; Email := "john@example.com" |}.
Definition jane : User :=
  {| ID := 0; Name := "Jane Smith"; Email := "jane@example.com" |}.

(** The store as main.go sets it up, and two sequences of calls on it. *)
Definition seeded : MemoryUserStore :=
  (play NewMemoryUserStore [OpCreate john; OpCreate jane]).2.

Definition session1 : list Op :=
  [OpCreate john; OpCreate jane; OpDelete 1].

Definition session2 : list Op :=
  [OpCreate john; OpGetAll; OpUpdate 2 john; OpGetByID 1; OpCreate jane].

(** A record sits under its own id. *)
Definition ids_match (m : MemoryUserStore) : Prop :=
  forall k user, users m !! k = Some user -> ID user = k.

(** The counter is positive and has not wrapped, and the keys are
    consistent with it. *)
Definition store_inv (m : MemoryUserStore) : Prop :=
  1 <= nextID m <= GoInt.max_int /\ key_consistent m.

(** ** The interface of store/user.go

    [UserStore] is the interface the handlers call the store through.  A
    method takes the state of the store it is called on and returns the
    state it leaves with what the Go method returns. *)

Record UserStore (S : Type) : Type := mkUserStore {
  UserStore_GetAll : S -> S * result (list User);
  UserStore_GetByID : S -> Z -> S * result User;
  UserStore_Create : S -> User -> S * result User;
  UserStore_Update : S -> Z -> User -> S * result User;
  UserStore_Delete : S -> Z -> S * result unit
}.
Arguments UserStore_GetAll {S} _ _.
Arguments UserStore_GetByID {S} _ _ _.
Arguments UserStore_Create {S} _ _ _.
Arguments UserStore_Update {S} _ _ _ _.
Arguments UserStore_Delete {S} _ _ _.

(** [*MemoryUserStore] as a [UserStore]; [order] is the order in which
    [range] presents a map to [GetAll]. *)
Definition MemoryUserStore_UserStore
    (order : gmap Z User -> list (Z * User)) : UserStore MemoryUserStore :=
  {| UserStore_GetAll := fun m => GetAll m (order (users m));
     UserStore_GetByID := GetByID;
     UserStore_Create := Create;
     UserStore_Update := Update;
     UserStore_Delete := Delete |}.

(** ** package handlers

    A handler reads the request from a [*gin.Context] and writes the
    response to it.  Of the context the handlers use [c.Param] and the
    outcome of [c.ShouldBindJSON(&user)] on a zero [store.User]; what they
    write with [c.JSON] or [c.Status] is the [Response]. *)

(** net/http *)
Definition StatusOK : Z := 200.
Definition StatusCreated : Z := 201.
Definition StatusNoContent : Z := 204.
Definition StatusBadRequest : Z := 400.
Definition StatusNotFound : Z := 404.
Definition StatusInternalServerError : Z := 500.

Record ErrorResponse : Type := mkErrorResponse { Error : string }.

(** [err.Error()] *)
Definition Error_text (err : error) : string :=
  match err with errorString text => text end.

Record GinContext : Type := mkGinContext {
  Param : string -> string;
  ShouldBindJSON : result User
}.

(** The object handed to [c.JSON]. *)
Inductive JSON : Type :=
| JSONUsers (users : list User)
| JSONUser (user : User)
| JSONError (e : ErrorResponse).

Record Response : Type := mkResponse {
  Code : Z;
  Body : option JSON
}.

(** [c.JSON(code, obj)] and [c.Status(code)] *)
Definition c_JSON (code : Z) (obj : JSON) : Response :=
  {| Code := code; Body := Some obj |}.
Definition c_Status (code : Z) : Response :=
  {| Code := code; Body := None |}.

Record UserHandler (S : Type) : Type := mkUserHandler {
  userStore : UserStore S
}.
Arguments userStore {S} _.

Definition NewUserHandler {S : Type} (userStore : UserStore S) : UserHandler S :=
  {| userStore := userStore |}.

Section handlers.
Variable S : Type.
(** [strconv.Atoi] *)
Variable Atoi : string -> result Z.

Definition GetUsers (h : UserHandler S) (s : S) (c : GinContext) : S * Response :=
  let (s, out) := UserStore_GetAll (userStore h) s in
  match out with
  | Err err =>
      (s, c_JSON StatusInternalServerError
            (JSONError {| Error := Error_text err |}))
  | Ok users => (s, c_JSON StatusOK (JSONUsers users))
  end.

Definition GetUser (h : UserHandler S) (s : S) (c : GinContext) : S * Response :=
  let idStr := Param c "id" in
  match Atoi idStr with
  | Err _ =>
      (s, c_JSON StatusBadRequest (JSONError {| Error := "Invalid user ID" |}))
  | Ok id =>
      let (s, out) := UserStore_GetByID (userStore h) s id in
      match out with
      | Err _ =>
          (s, c_JSON StatusNotFound (JSONError {| Error := "User not found" |}))
      | Ok user => (s, c_JSON StatusOK (JSONUser user))
      end
  end.

Definition CreateUser (h : UserHandler S) (s : S) (c : GinContext) : S * Response :=
  match ShouldBindJSON c with
  | Err err =>
      (s, c_JSON StatusBadRequest (JSONError {| Error := Error_text err |}))
  | Ok user =>
      let (s, out) := UserStore_Create (userStore h) s user in
      match out with
      | Err err =>
          (s, c_JSON StatusInternalServerError
                (JSONError {| Error := Error_text err |}))
      | Ok createdUser => (s, c_JSON StatusCreated (JSONUser createdUser))
      end
  end.

Definition UpdateUser (h : UserHandler S) (s : S) (c : GinContext) : S * Response :=
  let idStr := Param c "id" in
  match Atoi idStr with
  | Err _ =>
      (s, c_JSON StatusBadRequest (JSONError {| Error := "Invalid user ID" |}))
  | Ok id =>
      match ShouldBindJSON c with
      | Err err =>
          (s, c_JSON StatusBadRequest (JSONError {| Error := Error_text err |}))
      | Ok user =>
          let (s, out) := UserStore_Update (userStore h) s id user in
          match out with
          | Err _ =>
              (s, c_JSON StatusNotFound
                    (JSONError {| Error := "User not found" |}))
          | Ok updatedUser => (s, c_JSON StatusOK (JSONUser updatedUser))
          end
      end
  end.

Definition DeleteUser (h : UserHandler S) (s : S) (c : GinContext) : S * Response :=
  let idStr := Param c "id" in
  match Atoi idStr with
  | Err _ =>
      (s, c_JSON StatusBadRequest (JSONError {| Error := "Invalid user ID" |}))
  | Ok id =>
      let (s, out) := UserStore_Delete (userStore h) s id in
      match out with
      | Err _ =>
          (s, c_JSON StatusNotFound (JSONError {| Error := "User not found" |}))
      | Ok _ => (s, c_Status StatusNoContent)
      end
  end.

End handlers.

(** The five routes of the API, as [setupRouter] binds them to the
    handlers, and a request served by the handler of its route. *)
Inductive Endpoint : Type :=
| GET_users
| GET_users_id
| POST_users
| PUT_users_id
| DELETE_users_id.

Definition serve {S : Type} (Atoi : string -> result Z) (h : UserHandler S)
    (s : S) (request : Endpoint * GinContext) : S * Response :=
  match request.1 with
  | GET_users => GetUsers S h s request.2
  | GET_users_id => GetUser S Atoi h s request.2
  | POST_users => CreateUser S h s request.2
  | PUT_users_id => UpdateUser S Atoi h s request.2
  | DELETE_users_id => DeleteUser S Atoi h s request.2
  end.

(** The requests of a client served one after the other. *)
Fixpoint serve_all {S : Type} (Atoi : string -> result Z) (h : UserHandler S)
    (s : S) (requests : list (Endpoint * GinContext)) : S * list Response :=
  match requests with
  | [] => (s, [])
  | request :: requests =>
      let (s1, response) := serve Atoi h s request in
      let (s2, responses) := serve_all Atoi h s1 requests in
      (s2, response :: responses)
  end.

(** The handler [app.New] builds: the handlers on the in-memory store. *)
Definition memoryHandler (order : gmap Z User -> list (Z * User))
  : UserHandler MemoryUserStore :=
  NewUserHandler (MemoryUserStore_UserStore order).

(** The two error responses the handlers word themselves. *)
Definition invalid_user_id : Response :=
  c_JSON StatusBadRequest (JSONError {| Error := "Invalid user ID" |}).
Definition user_not_found : Response :=
  c_JSON StatusNotFound (JSONError {| Error := "User not found" |}).

(** The id a response announces as created: that of the record in the body
    of a 201. *)
Definition response_created_id (response : Response) : option Z :=
  match Body response with
  | Some (JSONUser user) =>
      if decide (Code response = StatusCreated) then Some (ID user) else None
  | _ => None
  end.

(** Requests for the examples: a context whose path carries [id], with no
    body to bind or with one that binds to [user]; and a stand-in for
    [strconv.Atoi] that reads the numerals 1 to 3 and rejects the rest. *)
Definition request_path (id : string) : GinContext :=
  {| Param := fun name => if decide (name = "id") then id else "";
     ShouldBindJSON := Err (errorString "EOF") |}.

Definition request_body (id : string) (user : User) : GinContext :=
  {| Param := fun name => if decide (name = "id") then id else "";
     ShouldBindJSON := Ok user |}.

Definition Atoi_1_to_3 (s : string) : result Z :=
  if decide (s = "1") then Ok 1
  else if decide (s = "2") then Ok 2
  else if decide (s = "3") then Ok 3
  else Err (errorString "invalid syntax").

(** ** internal/config/config.go

    [Load] reads the process environment and the file system and hands the
    file's bytes to [yaml.Unmarshal].  These are the [Host] the functions
    run on: what [os.Getenv] returns for a name (the empty string when the
    variable is unset), how the error of [os.Stat] on a path classifies,
    what [filepath.Abs] and [os.ReadFile] return, and what
    [yaml.Unmarshal(data, cfg)] makes of [cfg] and returns.  One [Host]
    stands for the state of the machine during one call of [Load]. *)

Module config.

Record Server : Type := mkServer {
  Server_Address : string;
  Server_Port : Z
}.

Record Database : Type := mkDatabase {
  Database_Type : string;
  Database_Host : string;
  Database_Port : Z;
  Database_Name : string;
  Database_User : string;
  Database_Password : string
}.

Record Logging : Type := mkLogging {
  Logging_Level : string;
  Logging_Format : string
}.

Record Config : Type := mkConfig {
  Config_Environment : string;
  Config_Server : Server;
  Config_Database : Database;
  Config_Logging : Logging
}.

(** The error of [os.Stat], as [os.IsNotExist] tells it apart. *)
Inductive StatError : Type :=
| StatNil
| StatNotExist
| StatOther.

Definition IsNotExist (err : StatError) : bool :=
  match err with
  | StatNotExist => true
  | _ => false
  end.

Record Host : Type := mkHost {
  Getenv : string -> string;
  Stat : string -> StatError;
  Abs : string -> result string;
  ReadFile : string -> result string;
  Unmarshal : string -> Config -> Config * option error
}.

(** [fmt.Errorf(prefix + "%w", err)], as far as [Error()] tells. *)
Definition Errorf_w (prefix : string) (err : error) : error :=
  errorString (prefix +:+ Error_text err).

Definition getConfigFile (os : Host) : string :=
  let env := Getenv os "GO_ENV" in
  let env := if decide (env = "") then "development" else env in
  let configFile := "configs/config." +:+ env +:+ ".yaml" in
  if IsNotExist (Stat os configFile) then
    let configFile := "configs/config.yaml" in
    if IsNotExist (Stat os configFile) then "" else configFile
  else configFile.

Definition loadFromFile (os : Host) (cfg : Config) (filename : string)
  : Config * option error :=
  match Abs os filename with
  | Err err => (cfg, Some err)
  | Ok absPath =>
      match ReadFile os absPath with
      | Err err => (cfg, Some err)
      | Ok data => Unmarshal os data cfg
      end
  end.

Definition loadFromEnv (os : Host) (cfg : Config) : Config :=
  let cfg :=
    let env := Getenv os "GO_ENV" in
    if decide (env <> "") then
      {| Config_Environment := env;
         Config_Server := Config_Server cfg;
         Config_Database := Config_Database cfg;
         Config_Logging := Config_Logging cfg |}
    else cfg in
  let cfg :=
    let addr := Getenv os "SERVER_ADDRESS" in
    if decide (addr <> "") then
      {| Config_Environment := Config_Environment cfg;
         Config_Server :=
           {| Server_Address := addr;
              Server_Port := Server_Port (Config_Server cfg) |};
         Config_Database := Config_Database cfg;
         Config_Logging := Config_Logging cfg |}
    else cfg in
  let cfg :=
    let dbType := Getenv os "DB_TYPE" in
    if decide (dbType <> "") then
      {| Config_Environment := Config_Environment cfg;
         Config_Server := Config_Server cfg;
         Config_Database :=
           {| Database_Type := dbType;
              Database_Host := Database_Host (Config_Database cfg);
              Database_Port := Database_Port (Config_Database cfg);
              Database_Name := Database_Name (Config_Database cfg);
              Database_User := Database_User (Config_Database cfg);
              Database_Password := Database_Password (Config_Database cfg) |};
         Config_Logging := Config_Logging cfg |}
    else cfg in
  let cfg :=
    let dbHost := Getenv os "DB_HOST" in
    if decide (dbHost <> "") then
      {| Config_Environment := Config_Environment cfg;
         Config_Server := Config_Server cfg;
         Config_Database :=
           {| Database_Type := Database_Type (Config_Database cfg);
              Database_Host := dbHost;
              Database_Port := Database_Port (Config_Database cfg);
              Database_Name := Database_Name (Config_Database cfg);
              Database_User := Database_User (Config_Database cfg);
              Database_Password := Database_Password (Config_Database cfg) |};
         Config_Logging := Config_Logging cfg |}
    else cfg in
  let cfg :=
    let logLevel := Getenv os "LOG_LEVEL" in
    if decide (logLevel <> "") then
      {| Config_Environment := Config_Environment cfg;
         Config_Server := Config_Server cfg;
         Config_Database := Config_Database cfg;
         Config_Logging :=
           {| Logging_Level := logLevel;
              Logging_Format := Logging_Format (Config_Logging cfg) |} |}
    else cfg in
  cfg.

(** The configuration [Load] starts from. *)
Definition defaults : Config :=
  {| Config_Environment := "development";
     Config_Server := {| Server_Address := ":8080"; Server_Port := 8080 |};
     Config_Database :=
       {| Database_Type := "memory";
          Database_Host := "";
          Database_Port := 0;
          Database_Name := "";
          Database_User := "";
          Database_Password := "" |};
     Config_Logging := {| Logging_Level := "info"; Logging_Format := "json" |} |}.

Definition Load (os : Host) : result Config :=
  let cfg := defaults in
  let configFile := getConfigFile os in
  let (cfg, failure) :=
    if decide (configFile <> "") then loadFromFile os cfg configFile
    else (cfg, None) in
  match failure with
  | Some err => Err (Errorf_w "failed to load config file: " err)
  | None => Ok (loadFromEnv os cfg)
  end.

End config.

(** ** package app *)

Module app.

(** What [setupRouter] asks of gin: whether it sets release mode, and the
    routes it registers, each under its full path, in the order of
    registration. *)
Inductive RouteHandler : Type :=
| UserRoute (endpoint : Endpoint)
| SwaggerRoute
| HealthRoute.

Record Route : Type := mkRoute {
  Route_Method : string;
  Route_Path : string;
  Route_Handler : RouteHandler
}.

Record Engine : Type := mkEngine {
  ReleaseMode : bool;
  Routes : list Route
}.

Record Application : Type := mkApplication {
  App_Config : config.Config;
  App_Router : Engine;
  App_UserStore : MemoryUserStore;
  App_UserHandler : UserHandler MemoryUserStore
}.

Definition setupRouter (userHandler : UserHandler MemoryUserStore)
    (cfg : config.Config) : Engine :=
  let release :=
    if decide (config.Config_Environment cfg = "production") then true
    else false in
  let v1 := "/api/v1" in
  let routes :=
    [ {| Route_Method := "GET"; Route_Path := v1 +:+ "/users";
         Route_Handler := UserRoute GET_users |};
      {| Route_Method := "GET"; Route_Path := v1 +:+ "/users/:id";
         Route_Handler := UserRoute GET_users_id |};
      {| Route_Method := "POST"; Route_Path := v1 +:+ "/users";
         Route_Handler := UserRoute POST_users |};
      {| Route_Method := "PUT"; Route_Path := v1 +:+ "/users/:id";
         Route_Handler := UserRoute PUT_users_id |};
      {| Route_Method := "DELETE"; Route_Path := v1 +:+ "/users/:id";
         Route_Handler := UserRoute DELETE_users_id |} ] in
  let routes :=
    if decide (config.Config_Environment cfg <> "production") then
      routes ++ [ {| Route_Method := "GET"; Route_Path := "/swagger/*any";
                     Route_Handler := SwaggerRoute |} ]
    else routes in
  let routes :=
    routes ++ [ {| Route_Method := "GET"; Route_Path := "/health";
                   Route_Handler := HealthRoute |} ] in
  {| ReleaseMode := release; Routes := routes |}.

Definition New (os : config.Host) (order : gmap Z User -> list (Z * User))
  : result Application :=
  match config.Load os with
  | Err err => Err err
  | Ok cfg =>
      let userStore := NewMemoryUserStore in
      let userStore :=
        (Create userStore
           {| ID := 0; Name := "John Doe"; Email := "john@example.com" |}).1 in
      let userStore :=
        (Create userStore
           {| ID := 0; Name := "Jane Smith"; Email := "jane@example.com" |}).1 in
      let userHandler := NewUserHandler (MemoryUserStore_UserStore order) in
      let router := setupRouter userHandler cfg in
      Ok {| App_Config := cfg;
            App_Router := router;
            App_UserStore := userStore;
            App_UserHandler := userHandler |}
  end.

End app.

(** The value an environment variable leaves a setting with: its own,
    unless it is empty; and the variables [loadFromEnv] reads. *)
Definition env_or (os : config.Host) (name old : string) : string :=
  if decide (config.Getenv os name = "") then old else config.Getenv os name.

Definition overriding : list string :=
  ["GO_ENV"; "SERVER_ADDRESS"; "DB_TYPE"; "DB_HOST"; "LOG_LEVEL"].

(** Hosts for the examples.  On [host_bare] no variable is set and no file
    exists.  On [host_production] [GO_ENV] is "production" and [LOG_LEVEL]
    is "warn", "configs/config.production.yaml" exists, and the decoder
    finds in it the environment "staging" and the port 9090. *)
Definition host_bare : config.Host :=
  {| config.Getenv := fun _ => "";
     config.Stat := fun _ => config.StatNotExist;
     config.Abs := fun path => Ok ("/srv/app/" +:+ path);
     config.ReadFile := fun _ => Err (errorString "no such file or directory");
     config.Unmarshal := fun _ cfg => (cfg, None) |}.

Definition host_production : config.Host :=
  {| config.Getenv := fun name =>
       if decide (name = "GO_ENV") then "production"
       else if decide (name = "LOG_LEVEL") then "warn"
       else "";
     config.Stat := fun path =>
       if decide (path = "configs/config.production.yaml") then config.StatNil
       else config.StatNotExist;
     config.Abs := fun path => Ok ("/srv/app/" +:+ path);
     config.ReadFile := fun _ => Ok "environment: staging";
     config.Unmarshal := fun _ cfg =>
       ({| config.Config_Environment := "staging";
           config.Config_Server :=
             {| config.Server_Address :=
                  config.Server_Address (config.Config_Server cfg);
                config.Server_Port := 9090 |};
           config.Config_Database := config.Config_Database cfg;
           config.Config_Logging := config.Config_Logging cfg |}, None) |}.

(** * Facts about Go's [int] *)

(** Linear arithmetic with the bounds of [int] spelled out. *)
Ltac int_lia :=
  unfold GoInt.in_range, GoInt.max_int, GoInt.min_int, GoInt.modulus,
    GoInt.bits in *;
  lia.

Section int_facts.
Import GoInt.

Lemma wrap_in_range z : in_range (wrap z).
Proof.
  unfold in_range, wrap, max_int, min_int, modulus, bits.
  pose proof (Z.mod_pos_bound (z - - 2 ^ (64 - 1)) (2 ^ 64) ltac:(lia)).
  lia.
Qed.

Lemma wrap_id z : in_range z -> wrap z = z.
Proof.
  unfold in_range, wrap, max_int, min_int, modulus, bits. intros H.
  rewrite Z.mod_small; lia.
Qed.

Lemma wrap_wrap_add z k : wrap (wrap z + k) = wrap (z + k).
Proof.
  unfold wrap.
  replace ((z - min_int) mod modulus + min_int + k - min_int)
    with ((z - min_int) mod modulus + k) by lia.
  replace (z + k - min_int) with ((z - min_int) + k) by lia.
  now rewrite Zplus_mod_idemp_l.
Qed.

Lemma incr_in_range z : in_range (incr z).
Proof. apply wrap_in_range. Qed.

Lemma incr_no_overflow z : min_int <= z < max_int -> incr z = z + 1.
Proof.
  intros H. unfold incr. apply wrap_id. unfold in_range. lia.
Qed.

Lemma incr_max_int : incr max_int = min_int.
Proof. reflexivity. Qed.

Lemma incr_neq z : in_range z -> incr z <> z.
Proof.
  intros Hz. destruct (Z.eq_dec z max_int) as [->|Hne].
  - rewrite incr_max_int. int_lia.
  - rewrite incr_no_overflow; unfold in_range in Hz; lia.
Qed.

Lemma wrap_inj a b : wrap a = wrap b -> - modulus < a - b < modulus -> a = b.
Proof.
  unfold wrap. intros H Hd.
  assert (0 < modulus) as Hz by int_lia.
  pose proof (Z.div_mod (a - min_int) modulus ltac:(lia)) as Ha.
  pose proof (Z.div_mod (b - min_int) modulus ltac:(lia)) as Hb.
  assert ((a - min_int) mod modulus = (b - min_int) mod modulus) as Hm by lia.
  rewrite Hm in Ha.
  assert (a - b
          = modulus * ((a - min_int) / modulus - (b - min_int) / modulus))
    as Hdiff by lia.
  assert ((a - min_int) / modulus - (b - min_int) / modulus = 0) by nia.
  lia.
Qed.

End int_facts.

(** * The methods, one call at a time *)

Section calls.
Implicit Types (m : MemoryUserStore) (user : User) (id k : Z).

Lemma collect_acc (entries : list (Z * User)) (acc : list User) :
  fold_left (fun users (entry : Z * User) => users ++ [entry.2]) entries acc
  = acc ++ entries.*2.
Proof.
  revert acc. induction entries as [|e es IH]; intros acc; simpl.
  - by rewrite app_nil_r.
  - rewrite IH. by rewrite <- app_assoc.
Qed.

Lemma collect_values (entries : list (Z * User)) : collect entries = entries.*2.
Proof. unfold collect. by rewrite collect_acc. Qed.

Lemma GetByID_store m id : (GetByID m id).1 = m.
Proof. unfold GetByID. by destruct (users m !! id). Qed.

Lemma GetByID_found m id user :
  users m !! id = Some user -> GetByID m id = (m, Ok user).
Proof. intros H. unfold GetByID. by rewrite H. Qed.

Lemma GetByID_missing m id :
  users m !! id = None -> GetByID m id = (m, Err ErrNotFound).
Proof. intros H. unfold GetByID. by rewrite H. Qed.

Lemma Create_eq m user :
  Create m user =
    ({| users := <[nextID m := set_ID user (nextID m)]> (users m);
        nextID := GoInt.incr (nextID m) |},
     Ok (set_ID user (nextID m))).
Proof. reflexivity. Qed.

Lemma Update_found m id user old :
  users m !! id = Some old ->
  Update m id user =
    ({| users := <[id := set_ID user id]> (users m); nextID := nextID m |},
     Ok (set_ID user id)).
Proof. intros H. unfold Update. by rewrite H. Qed.

Lemma Update_missing m id user :
  users m !! id = None -> Update m id user = (m, Err ErrNotFound).
Proof. intros H. unfold Update. by rewrite H. Qed.

Lemma Delete_found m id old :
  users m !! id = Some old ->
  Delete m id = ({| users := delete id (users m); nextID := nextID m |}, Ok tt).
Proof. intros H. unfold Delete. by rewrite H. Qed.

Lemma Delete_missing m id :
  users m !! id = None -> Delete m id = (m, Err ErrNotFound).
Proof. intros H. unfold Delete. by rewrite H. Qed.

Lemma Update_nextID m id user : nextID (Update m id user).1 = nextID m.
Proof. unfold Update. by destruct (users m !! id). Qed.

Lemma Delete_nextID m id : nextID (Delete m id).1 = nextID m.
Proof. unfold Delete. by destruct (users m !! id). Qed.

(** A failed call hands back the very store it was given. *)
Lemma GetByID_fails_unchanged m id m' e :
  GetByID m id = (m', Err e) -> m' = m /\ e = ErrNotFound /\ users m !! id = None.
Proof.
  unfold GetByID. destruct (users m !! id); intros H; by simplify_eq.
Qed.

Lemma Update_fails_unchanged m id user m' e :
  Update m id user = (m', Err e) ->
  m' = m /\ e = ErrNotFound /\ users m !! id = None.
Proof.
  unfold Update. destruct (users m !! id); intros H; by simplify_eq.
Qed.

Lemma Delete_fails_unchanged m id m' e :
  Delete m id = (m', Err e) -> m' = m /\ e = ErrNotFound /\ users m !! id = None.
Proof.
  unfold Delete. destruct (users m !! id); intros H; by simplify_eq.
Qed.

End calls.

(** * Runs: the counter and the ids handed out *)

Section runs.
Import GoInt.
Implicit Types (m : MemoryUserStore) (tr : list (Op * Reply)) (id k : Z).

Lemma run_app m tr1 m1 tr2 m2 :
  run m tr1 m1 -> run m1 tr2 m2 -> run m (tr1 ++ tr2) m2.
Proof.
  induction 1 as [|m o r m' tr m1 Hstep _ IH]; intros H2; simpl; [done|].
  eapply run_cons; eauto.
Qed.

Lemma run_snoc m tr m1 o r m2 :
  run m tr m1 -> step m1 o r m2 -> run m (tr ++ [(o, r)]) m2.
Proof.
  intros H1 H2. eapply run_app; [exact H1|]. eapply run_cons; [exact H2|].
  apply run_nil.
Qed.

Lemma run_app_inv m tr1 tr2 m2 :
  run m (tr1 ++ tr2) m2 -> exists m1, run m tr1 m1 /\ run m1 tr2 m2.
Proof.
  revert m. induction tr1 as [|[o r] tr1 IH]; intros m H; simpl in H.
  - exists m. split; [apply run_nil | done].
  - inversion H as [|? ? ? m' ? ? Hstep Hrest]; subst.
    destruct (IH _ Hrest) as (m1 & Ha & Hb).
    exists m1. split; [by eapply run_cons | done].
Qed.

Lemma created_ids_app tr1 tr2 :
  created_ids (tr1 ++ tr2) = created_ids tr1 ++ created_ids tr2.
Proof. unfold created_ids. apply omap_app. Qed.

Lemma creates_app tr1 tr2 : creates (tr1 ++ tr2) = creates tr1 + creates tr2.
Proof. unfold creates. rewrite created_ids_app, length_app. lia. Qed.

Lemma creates_nonneg tr : 0 <= creates tr.
Proof. unfold creates. lia. Qed.

Lemma created_ids_cons o r tr :
  created_ids ((o, r) :: tr) =
    match created_id (o, r) with
    | Some i => i :: created_ids tr
    | None => created_ids tr
    end.
Proof. unfold created_ids. simpl. by destruct (created_id (o, r)). Qed.

Lemma creates_cons o r tr :
  creates ((o, r) :: tr) =
    match created_id (o, r) with
    | Some _ => 1 + creates tr
    | None => creates tr
    end.
Proof.
  unfold creates. rewrite created_ids_cons.
  destruct (created_id (o, r)); simpl; lia.
Qed.

(** A step either is a [Create], which hands out the counter and moves it
    on by one [++], or leaves the counter alone. *)
Lemma step_counter m o r m' :
  step m o r m' ->
  (created_id (o, r) = Some (nextID m) /\ nextID m' = incr (nextID m))
  \/ (created_id (o, r) = None /\ nextID m' = nextID m).
Proof.
  destruct 1 as [entries Hent|id|user|id user|id].
  - right. done.
  - right. by rewrite GetByID_store.
  - left. done.
  - right. split; [done | apply Update_nextID].
  - right. split; [done | apply Delete_nextID].
Qed.

Lemma step_in_range m o r m' :
  step m o r m' -> in_range (nextID m) -> in_range (nextID m').
Proof.
  intros Hs Hr. destruct (step_counter _ _ _ _ Hs) as [[_ ->]|[_ ->]];
    [apply incr_in_range | done].
Qed.

Lemma run_in_range m tr m' :
  run m tr m' -> in_range (nextID m) -> in_range (nextID m').
Proof. induction 1; eauto using step_in_range. Qed.

(** After a run the counter has moved by the number of its [Create]
    calls, in [int] arithmetic. *)
Lemma run_counter_wrap m tr m' :
  run m tr m' -> in_range (nextID m) ->
  nextID m' = wrap (nextID m + creates tr).
Proof.
  induction 1 as [m|m o r m1 tr m2 Hstep Hrun IH]; intros Hr.
  - unfold creates. simpl. rewrite Z.add_0_r. by rewrite wrap_id.
  - rewrite creates_cons.
    pose proof (step_in_range _ _ _ _ Hstep Hr) as Hr1.
    rewrite (IH Hr1).
    destruct (step_counter _ _ _ _ Hstep) as [[-> ->]|[-> ->]]; [|done].
    unfold incr. rewrite wrap_wrap_add. f_equal. lia.
Qed.

(** As long as the counter stays below its wrap-around, it counts the
    [Create] calls. *)
Lemma run_counter m tr m' :
  run m tr m' -> min_int <= nextID m -> nextID m + creates tr <= max_int ->
  nextID m' = nextID m + creates tr.
Proof.
  intros Hrun Hlo Hhi. pose proof (creates_nonneg tr).
  rewrite (run_counter_wrap _ _ _ Hrun) by (unfold in_range; lia).
  apply wrap_id. unfold in_range. lia.
Qed.

(** The ids handed out are consecutive from the counter on, as long as
    each is taken before the counter wraps. *)
Lemma run_created_ids m tr m' :
  run m tr m' -> min_int <= nextID m -> nextID m + creates tr - 1 <= max_int ->
  created_ids tr = seqZ (nextID m) (creates tr).
Proof.
  induction 1 as [m|m o r m1 tr m2 Hstep Hrun IH]; intros Hlo Hhi.
  - done.
  - rewrite creates_cons in Hhi |- *. rewrite created_ids_cons.
    pose proof (creates_nonneg tr) as Hnn.
    destruct (step_counter _ _ _ _ Hstep) as [[Hc Hn]|[Hc Hn]];
      rewrite Hc in Hhi |- *.
    + rewrite seqZ_cons by lia. f_equal.
      replace (Z.pred (1 + creates tr)) with (creates tr) by lia.
      destruct (decide (creates tr = 0)) as [Hz|Hz].
      * rewrite Hz, seqZ_nil by lia. unfold creates in Hz.
        destruct (created_ids tr); [done | simpl in Hz; lia].
      * rewrite incr_no_overflow in Hn by lia.
        rewrite <- Z.add_1_r, <- Hn. apply IH; lia.
    + rewrite <- Hn. apply IH; lia.
Qed.

Lemma seqZ_StronglySorted a n : StronglySorted Z.lt (seqZ a n).
Proof.
  destruct (decide (0 <= n)) as [Hn|Hn]; [|rewrite seqZ_nil by lia; constructor].
  revert a. pattern n. apply natlike_ind; [| |exact Hn].
  - intros a. rewrite seqZ_nil by lia. constructor.
  - intros x Hx IH a. rewrite seqZ_cons by lia.
    replace (Z.pred (Z.succ x)) with x by lia.
    constructor; [apply IH|]. apply Forall_seqZ. lia.
Qed.

Lemma run_first_created m tr m' i :
  run m tr m' -> head (created_ids tr) = Some i -> i = nextID m.
Proof.
  induction 1 as [m|m o r m1 tr m2 Hstep Hrun IH]; [done|].
  rewrite created_ids_cons.
  destruct (step_counter _ _ _ _ Hstep) as [[-> Hx]|[-> Hx]]; simpl.
  - by intros [= <-].
  - rewrite <- Hx. apply IH.
Qed.

(** The ids handed out, wrap-around and all. *)
Lemma run_created_ids_wrap m tr m' :
  run m tr m' -> in_range (nextID m) ->
  created_ids tr = (fun i => wrap (nextID m + i)) <$> seqZ 0 (creates tr).
Proof.
  induction 1 as [m|m o r m1 tr m2 Hstep Hrun IH]; intros Hr; [done|].
  rewrite creates_cons, created_ids_cons.
  pose proof (creates_nonneg tr) as Hnn.
  pose proof (step_in_range _ _ _ _ Hstep Hr) as Hr1.
  destruct (step_counter _ _ _ _ Hstep) as [[-> Hx]|[-> Hx]].
  - rewrite seqZ_cons by lia. simpl.
    rewrite Z.add_0_r, wrap_id by done. f_equal.
    replace (Z.pred (1 + creates tr)) with (creates tr) by lia.
    rewrite (IH Hr1), Hx. change (Z.succ 0) with (1 + 0).
    rewrite <- (fmap_add_seqZ 1 0), <- list_fmap_compose.
    apply list_fmap_ext. intros _ i _. simpl. unfold incr.
    rewrite wrap_wrap_add. f_equal. lia.
  - rewrite (IH Hr1), Hx. done.
Qed.

(** Until the counter has come round, no id is handed out twice. *)
Lemma run_created_NoDup m tr m' :
  run m tr m' -> in_range (nextID m) -> creates tr <= modulus ->
  NoDup (created_ids tr).
Proof.
  intros Hrun Hr Hb. rewrite (run_created_ids_wrap _ _ _ Hrun Hr).
  apply NoDup_fmap_2_strong; [|apply NoDup_seqZ].
  intros i j Hi Hj Hw. apply elem_of_seqZ in Hi, Hj.
  assert (nextID m + i = nextID m + j) by (apply wrap_inj; [done | lia]).
  lia.
Qed.

Lemma NewMemoryUserStore_in_range : in_range (nextID NewMemoryUserStore).
Proof. simpl. int_lia. Qed.

(** From the new store, the ids of at most [max_int] [Create] calls are
    1, 2, 3 and so on. *)
Lemma run_new_created_ids tr m :
  run NewMemoryUserStore tr m -> creates tr <= max_int ->
  created_ids tr = seqZ 1 (creates tr).
Proof.
  intros Hrun Hb. apply (run_created_ids _ _ _ Hrun); simpl; [|lia].
  int_lia.
Qed.

End runs.

(** * Runs: the keys of the map *)

Section keys.
Import GoInt.
Implicit Types (m : MemoryUserStore) (tr : list (Op * Reply)) (id k : Z).

Lemma key_consistent_ids_match m : key_consistent m -> ids_match m.
Proof. intros H k user Hk. by destruct (H k user Hk). Qed.

Lemma step_ids_match m o r m' : step m o r m' -> ids_match m -> ids_match m'.
Proof.
  destruct 1 as [entries Hent|id|user|id user|id]; intros Hm; simpl.
  - done.
  - by rewrite GetByID_store.
  - intros k u. simpl. rewrite lookup_insert. case_decide; [|by apply Hm].
    intros [= <-]. done.
  - unfold Update. destruct (users m !! id) as [old|]; [|done]. intros k u. simpl.
    rewrite lookup_insert. case_decide; [|by apply Hm]. intros [= <-]. done.
  - unfold Delete. destruct (users m !! id) as [old|]; [|done]. intros k u. simpl.
    rewrite lookup_delete. case_decide; [done | by apply Hm].
Qed.

Lemma run_ids_match m tr m' : run m tr m' -> ids_match m -> ids_match m'.
Proof. induction 1; eauto using step_ids_match. Qed.

(** Only a [Create] adds a key, and the key is the id it returns. *)
Lemma step_keys m o r m' k :
  step m o r m' -> is_Some (users m' !! k) ->
  is_Some (users m !! k) \/ created_id (o, r) = Some k.
Proof.
  destruct 1 as [entries Hent|id|user|id user|id]; simpl.
  - by left.
  - rewrite GetByID_store. by left.
  - rewrite lookup_insert. case_decide; [right; by subst | by left].
  - unfold Update. destruct (users m !! id) as [old|] eqn:E; [|by left]. simpl.
    rewrite lookup_insert. case_decide; [subst; rewrite E; eauto | by left].
  - unfold Delete. destruct (users m !! id) as [old|] eqn:E; [|by left]. simpl.
    rewrite lookup_delete. case_decide; [by intros [? ?] | by left].
Qed.

Lemma run_keys m tr m' k :
  run m tr m' -> is_Some (users m' !! k) ->
  is_Some (users m !! k) \/ k ∈ created_ids tr.
Proof.
  induction 1 as [m|m o r m1 tr m2 Hstep Hrun IH]; intros Hk; [by left|].
  rewrite created_ids_cons. destruct (IH Hk) as [H1|H1].
  - destruct (step_keys _ _ _ _ k Hstep H1) as [H0|H0]; [by left|].
    right. rewrite H0. apply list_elem_of_here.
  - right. destruct (created_id (o, r)); [by apply list_elem_of_further | done].
Qed.

(** Without a successful [Delete], the keys are those there before and
    the ids handed out since. *)
Lemma step_dom_no_delete m o r m' :
  step m o r m' -> deleted_id (o, r) = None ->
  dom (users m') =
    dom (users m) ∪ match created_id (o, r) with
                    | Some i => {[ i ]}
                    | None => ∅
                    end.
Proof.
  destruct 1 as [entries Hent|id|user|id user|id]; simpl; intros Hd.
  - set_solver.
  - rewrite GetByID_store. set_solver.
  - rewrite dom_insert_L. set_solver.
  - unfold Update. destruct (users m !! id) as [old|] eqn:E; simpl; [|set_solver].
    rewrite dom_insert_L. apply (elem_of_dom_2 (users m)) in E. set_solver.
  - unfold Delete in *. destruct (users m !! id) as [old|] eqn:E; simpl in *;
      [done | set_solver].
Qed.

Lemma deleted_ids_cons_nil o r tr :
  deleted_ids ((o, r) :: tr) = [] ->
  deleted_id (o, r) = None /\ deleted_ids tr = [].
Proof.
  unfold deleted_ids.
  change (omap deleted_id ((o, r) :: tr))
    with (match deleted_id (o, r) with
          | Some i => i :: omap deleted_id tr
          | None => omap deleted_id tr
          end).
  destruct (deleted_id (o, r)); [done|]. by split.
Qed.

Lemma run_dom_no_delete m tr m' :
  run m tr m' -> deleted_ids tr = [] ->
  dom (users m') = dom (users m) ∪ list_to_set (created_ids tr).
Proof.
  induction 1 as [m|m o r m1 tr m2 Hstep Hrun IH]; intros Hd.
  - simpl. set_solver.
  - apply deleted_ids_cons_nil in Hd as [Hd1 Hd2].
    rewrite (IH Hd2), (step_dom_no_delete _ _ _ _ Hstep Hd1).
    rewrite created_ids_cons. destruct (created_id (o, r)); simpl; set_solver.
Qed.

(** The invariant of the store and its preservation, one step at a time:
    a [Create] must find the counter below [max_int]. *)
Lemma NewMemoryUserStore_inv : store_inv NewMemoryUserStore.
Proof.
  split; [simpl; int_lia|]. intros k u Hk.
  simpl in Hk. by rewrite lookup_empty in Hk.
Qed.

Lemma step_store_inv m o r m' :
  step m o r m' -> store_inv m ->
  nextID m < max_int \/ created_id (o, r) = None ->
  store_inv m'.
Proof.
  destruct 1 as [entries Hent|id|user|id user|id]; intros [Hn Hk] Hb; simpl.
  - done.
  - by rewrite GetByID_store.
  - destruct Hb as [Hb|?]; [|done].
    assert (incr (nextID m) = nextID m + 1) as Hi
      by (apply incr_no_overflow; int_lia).
    split; simpl; [lia|]. intros k u. simpl. rewrite lookup_insert.
    case_decide.
    + intros [= <-]. simpl. lia.
    + intros Hu. destruct (Hk _ _ Hu). lia.
  - unfold Update. destruct (users m !! id) as [old|] eqn:E; [|done].
    split; [done|]. intros k u. simpl. rewrite lookup_insert. case_decide.
    + intros [= <-]. subst. simpl. destruct (Hk _ _ E). lia.
    + apply Hk.
  - unfold Delete. destruct (users m !! id) as [old|] eqn:E; [|done].
    split; [done|]. intros k u. simpl. rewrite lookup_delete.
    case_decide; [done | apply Hk].
Qed.

Lemma run_store_inv m tr m' :
  run m tr m' -> store_inv m -> nextID m + creates tr <= max_int ->
  store_inv m'.
Proof.
  induction 1 as [m|m o r m1 tr m2 Hstep Hrun IH]; intros Hinv Hb; [done|].
  rewrite creates_cons in Hb. pose proof (creates_nonneg tr).
  pose proof Hinv as [Hn _].
  destruct (step_counter _ _ _ _ Hstep) as [[Hc Hx]|[Hc Hx]];
    rewrite Hc in Hb.
  - apply IH.
    + eapply step_store_inv; eauto. left. lia.
    + rewrite Hx, incr_no_overflow by int_lia. lia.
  - apply IH; [|lia]. eapply step_store_inv; eauto.
Qed.

(** Every state of a run from the new store that has handed out fewer
    than [max_int] ids satisfies the invariant, with the counter one past
    the number of ids. *)
Lemma run_new_inv tr m :
  run NewMemoryUserStore tr m -> creates tr < max_int ->
  store_inv m /\ nextID m = 1 + creates tr.
Proof.
  intros Hrun Hb. split.
  - eapply run_store_inv; [exact Hrun | apply NewMemoryUserStore_inv|].
    simpl. lia.
  - apply (run_counter _ _ _ Hrun); simpl; int_lia.
Qed.

(** Every key of a store run from new is an id some [Create] returned. *)
Lemma run_new_keys_created tr m k :
  run NewMemoryUserStore tr m -> is_Some (users m !! k) -> k ∈ created_ids tr.
Proof.
  intros Hrun Hk. destruct (run_keys _ _ _ k Hrun Hk) as [H|H]; [|done].
  simpl in H. rewrite lookup_empty in H. by destruct H.
Qed.

Lemma step_deleted m o r m' id :
  step m o r m' -> deleted_id (o, r) = Some id ->
  exists old, users m !! id = Some old /\ users m' = delete id (users m).
Proof.
  destruct 1 as [entries Hent|id0|user|id0 user|id0]; simpl; try done.
  unfold Delete. destruct (users m !! id0) as [old|] eqn:E; simpl; [|done].
  intros [= <-]. eauto.
Qed.

Lemma deleted_ids_cons o r tr :
  deleted_ids ((o, r) :: tr) =
    match deleted_id (o, r) with
    | Some i => i :: deleted_ids tr
    | None => deleted_ids tr
    end.
Proof. reflexivity. Qed.

(** An id that a run deleted lies below the counter the run ends with, as
    long as the counter has not wrapped. *)
Lemma run_deleted_below m tr m' id :
  run m tr m' -> store_inv m -> nextID m + creates tr <= max_int ->
  id ∈ deleted_ids tr -> id < nextID m'.
Proof.
  induction 1 as [m|m o r m1 tr m2 Hstep Hrun IH]; intros Hinv Hb Hin.
  - by apply elem_of_nil in Hin.
  - pose proof (run_cons _ _ _ _ _ _ Hstep Hrun) as Hwhole.
    pose proof Hinv as [[Hlo _] Hk].
    pose proof (run_counter _ _ _ Hwhole
                  ltac:(int_lia) Hb) as Hend.
    rewrite creates_cons in Hb. pose proof (creates_nonneg tr) as Hnn.
    assert (store_inv m1 /\ nextID m1 + creates tr <= max_int) as [Hinv1 Hb1].
    { destruct (step_counter _ _ _ _ Hstep) as [[Hc Hx]|[Hc Hx]];
        rewrite Hc in Hb.
      - split; [eapply step_store_inv; eauto; left; lia|].
        rewrite Hx, incr_no_overflow by int_lia. lia.
      - split; [eapply step_store_inv; eauto | lia]. }
    rewrite deleted_ids_cons in Hin.
    destruct (deleted_id (o, r)) as [d|] eqn:Hd; [|by apply IH].
    apply elem_of_cons in Hin as [->|Hin]; [|by apply IH].
    destruct (step_deleted _ _ _ _ _ Hstep Hd) as (old & Hold & _).
    destruct (Hk _ _ Hold) as [? _].
    pose proof (creates_nonneg ((o, r) :: tr)). lia.
Qed.

End keys.

(** * Runs that exist *)

Section reachable.
Import GoInt.
Implicit Types (m : MemoryUserStore) (tr : list (Op * Reply)) (id k : Z).

Lemma call_step m o : step m o (call m o).2 (call m o).1.
Proof.
  destruct o as [|id|user|id user|id]; simpl.
  - apply (step_GetAll m). unfold range_of. done.
  - apply step_GetByID.
  - apply step_Create.
  - apply step_Update.
  - apply step_Delete.
Qed.

Lemma play_run m ops : run m (play m ops).1 (play m ops).2.
Proof.
  revert m. induction ops as [|o ops IH]; intros m; simpl; [apply run_nil|].
  pose proof (call_step m o) as Hs. destruct (call m o) as [m1 r].
  specialize (IH m1). destruct (play m1 ops) as [tr m2]. simpl in *.
  by eapply run_cons.
Qed.

Lemma step_Create_to m user m' stored :
  Create m user = (m', Ok stored) ->
  step m (OpCreate user) (ReplyUser (Ok stored)) m'.
Proof. intros H. pose proof (step_Create m user) as Hs. by rewrite H in Hs. Qed.

Lemma step_Delete_to m id m' :
  Delete m id = (m', Ok tt) -> step m (OpDelete id) (ReplyUnit (Ok tt)) m'.
Proof. intros H. pose proof (step_Delete m id) as Hs. by rewrite H in Hs. Qed.

(** Creating a record in an empty store and deleting it again leaves the
    store empty with the counter moved on by one [++]. *)
Lemma create_delete_run n user :
  run {| users := ∅; nextID := n |}
      [(OpCreate user, ReplyUser (Ok (set_ID user n)));
       (OpDelete n, ReplyUnit (Ok tt))]
      {| users := ∅; nextID := incr n |}.
Proof.
  eapply run_cons; [apply step_Create_to; reflexivity|].
  eapply run_cons; [|apply run_nil].
  apply step_Delete_to. simpl.
  rewrite (Delete_found _ _ (set_ID user n)) by (simpl; apply lookup_insert_eq).
  simpl. by rewrite delete_insert_eq, delete_empty.
Qed.

(** [churn] is a run: it leaves the store empty with the counter moved on
    by the number of rounds. *)
Lemma churn_run user j :
  forall n, in_range n ->
  run {| users := ∅; nextID := n |} (churn user n j)
      {| users := ∅; nextID := wrap (n + Z.of_nat j) |}.
Proof.
  induction j as [|j IH]; intros n Hn.
  - simpl. rewrite Z.add_0_r, wrap_id by done. apply run_nil.
  - change (churn user n (S j))
      with ([(OpCreate user, ReplyUser (Ok (set_ID user n)));
             (OpDelete n, ReplyUnit (Ok tt))] ++ churn user (incr n) j).
    eapply run_app; [apply create_delete_run|].
    replace (wrap (n + Z.of_nat (S j))) with (wrap (incr n + Z.of_nat j)).
    + apply IH, incr_in_range.
    + unfold incr. rewrite wrap_wrap_add. f_equal. lia.
Qed.

Lemma churn_creates user n j : creates (churn user n j) = Z.of_nat j.
Proof.
  revert n. induction j as [|j IH]; intros n; [done|].
  change (churn user n (S j))
    with ((OpCreate user, ReplyUser (Ok (set_ID user n)))
          :: (OpDelete n, ReplyUnit (Ok tt)) :: churn user (incr n) j).
  rewrite !creates_cons. simpl. rewrite IH. lia.
Qed.

(** The same with the number of rounds given as an [int]-sized number. *)
Lemma churn_reaches user n z :
  in_range n -> 0 <= z ->
  run {| users := ∅; nextID := n |} (churn user n (Z.to_nat z))
      {| users := ∅; nextID := wrap (n + z) |}
  /\ creates (churn user n (Z.to_nat z)) = z.
Proof.
  intros Hn Hz. pose proof (churn_run user (Z.to_nat z) n Hn) as Hrun.
  rewrite churn_creates. rewrite (Z2Nat.id z Hz) in Hrun |- *.
  exact (conj Hrun eq_refl).
Qed.

(** In particular the counter of an empty store can stand at any [int]. *)
Lemma empty_store_reachable n :
  in_range n ->
  exists tr, run NewMemoryUserStore tr {| users := ∅; nextID := n |}.
Proof.
  intros Hn.
  destruct (churn_reaches john 1 ((n - 1) mod modulus)
              NewMemoryUserStore_in_range
              ltac:(apply Z.mod_pos_bound; reflexivity)) as [Hrun _].
  eexists.
  assert (wrap (1 + (n - 1) mod modulus) = n) as Hw.
  { rewrite <- (wrap_id n Hn) at 2. unfold wrap. f_equal.
    replace (1 + (n - 1) mod modulus - min_int)
      with ((n - 1) mod modulus + (1 - min_int)) by lia.
    rewrite Zplus_mod_idemp_l. f_equal. lia. }
  rewrite Hw in Hrun. exact Hrun.
Qed.

End reachable.

(** * The contract of the store *)

Section contract.
Import GoInt.

(** ** Create *)

(** C1. For every candidate record and every store, [Create] ignores the id
    the caller supplied, assigns the current value of the counter (1 for
    the first record ever created from a new store), stores the record
    under that id, returns the stored record with the assigned id, never
    fails, and moves the counter on by exactly one [++] per call, also when
    the same candidate is created twice, the second time under another id;
    below [max_int] that [++] adds one. *)
Theorem Create_assigns_next_id (m : MemoryUserStore) (user : User) :
  let stored := {| ID := nextID m; Name := Name user; Email := Email user |} in
  let m1 := (Create m user).1 in
  Create m user =
    ({| users := <[nextID m := stored]> (users m);
        nextID := incr (nextID m) |}, Ok stored)
  /\ users m1 !! nextID m = Some stored
  /\ (forall id, Create m (set_ID user id) = Create m user)
  /\ (Create NewMemoryUserStore user).2
      = Ok {| ID := 1; Name := Name user; Email := Email user |}
  /\ (forall tr m' i,
        run NewMemoryUserStore tr m' -> head (created_ids tr) = Some i -> i = 1)
  /\ nextID m1 = incr (nextID m)
  /\ (min_int <= nextID m < max_int -> nextID m1 = nextID m + 1)
  /\ (Create m1 user).2
      = Ok {| ID := incr (nextID m); Name := Name user; Email := Email user |}
  /\ nextID (Create m1 user).1 = incr (incr (nextID m))
  /\ (in_range (nextID m) -> incr (nextID m) <> nextID m).
Proof.
  cbv zeta. repeat split; try reflexivity.
  - simpl. apply lookup_insert_eq.
  - intros tr m' i Hrun Hh. by rewrite (run_first_created _ _ _ _ Hrun Hh).
  - intros Hb. simpl. by apply incr_no_overflow.
  - apply incr_neq.
Qed.

(** ** Update *)

(** C2. For every id and candidate record, [Update id candidate] fails with
    [ErrNotFound] and leaves the store as it was when no record has that
    id; otherwise it puts the candidate's name and email under that id,
    with the id field set to the id supplied whatever id the candidate
    carries, leaves every other record and the counter alone, and returns
    the updated record. *)
Theorem Update_replaces_fields (m : MemoryUserStore) (id : Z) (candidate : User) :
  (users m !! id = None -> Update m id candidate = (m, Err ErrNotFound))
  /\ (forall old, users m !! id = Some old ->
        let updated :=
          {| ID := id; Name := Name candidate; Email := Email candidate |} in
        let m' := (Update m id candidate).1 in
        Update m id candidate =
          ({| users := <[id := updated]> (users m); nextID := nextID m |},
           Ok updated)
        /\ users m' !! id = Some updated
        /\ (forall k, k <> id -> users m' !! k = users m !! k)
        /\ (forall id', Update m id (set_ID candidate id') = Update m id candidate)).
Proof.
  split; [apply Update_missing|]. intros old Hold. cbv zeta.
  rewrite (Update_found _ _ _ _ Hold). repeat split; simpl.
  - apply lookup_insert_eq.
  - intros k Hk. by apply lookup_insert_ne.
  - intros id'. by rewrite (Update_found _ _ _ _ Hold).
Qed.

(** ** Round trip *)

(** C7. For every record [r] and every store, [Create r] returns a stored
    record, and whenever it returns the stored record with assigned id
    [i], [GetByID i] right after returns a record with the name and the
    email of [r] and with id [i]. *)
Theorem Create_then_GetByID (m : MemoryUserStore) (r : User) :
  (exists m' stored, Create m r = (m', Ok stored))
  /\ (forall m' stored,
        Create m r = (m', Ok stored) ->
        exists got,
          GetByID m' (ID stored) = (m', Ok got)
          /\ Name got = Name r /\ Email got = Email r /\ ID got = ID stored
          /\ got = stored).
Proof.
  split; [rewrite Create_eq; eauto|]. intros m' stored.
  rewrite Create_eq. intros [= <- <-]. exists (set_ID r (nextID m)).
  split; [|done]. apply GetByID_found. simpl. apply lookup_insert_eq.
Qed.

(** ** Failure leaves no trace *)

(** C8. Whenever [GetByID], [Update] or [Delete] fails, the error is
    [ErrNotFound] and the store after the call, map and counter, is the
    store before it. *)
Theorem failed_call_changes_nothing
    (m : MemoryUserStore) (id : Z) (candidate : User)
    (m' : MemoryUserStore) (e : error) :
  GetByID m id = (m', Err e)
  \/ Update m id candidate = (m', Err e)
  \/ Delete m id = (m', Err e) ->
  users m' = users m /\ nextID m' = nextID m /\ e = ErrNotFound
  /\ users m !! id = None.
Proof.
  intros [H|[H|H]].
  - by destruct (GetByID_fails_unchanged _ _ _ _ H) as (-> & -> & ?).
  - by destruct (Update_fails_unchanged _ _ _ _ _ H) as (-> & -> & ?).
  - by destruct (Delete_fails_unchanged _ _ _ _ H) as (-> & -> & ?).
Qed.

(** ** Read one *)

(** C5, as the code has it.  For every id, [GetByID id] returns the record
    stored under that id when there is one, and fails with [ErrNotFound]
    exactly when there is none, leaving the store as it was.  In a store
    run from new there is none under an id that no [Create] returned, and
    none under an id at or below 0 as long as no more than [max_int]
    records have been created. *)
Theorem GetByID_found_or_not_found (m : MemoryUserStore) (id : Z) :
  (forall user, users m !! id = Some user -> GetByID m id = (m, Ok user))
  /\ (users m !! id = None <-> GetByID m id = (m, Err ErrNotFound))
  /\ (forall m' e, GetByID m id = (m', Err e) -> m' = m /\ e = ErrNotFound)
  /\ (forall tr, run NewMemoryUserStore tr m -> id ∉ created_ids tr ->
        GetByID m id = (m, Err ErrNotFound))
  /\ (forall tr, run NewMemoryUserStore tr m -> creates tr <= max_int ->
        id <= 0 -> GetByID m id = (m, Err ErrNotFound)).
Proof.
  split; [apply GetByID_found|]. split; [|split; [|split]].
  - split; [apply GetByID_missing|]. unfold GetByID.
    by destruct (users m !! id).
  - intros m' e H. by destruct (GetByID_fails_unchanged _ _ _ _ H) as (-> & -> & _).
  - intros tr Hrun Hid. apply GetByID_missing.
    destruct (users m !! id) as [user|] eqn:E; [|done]. exfalso. apply Hid.
    apply (run_new_keys_created _ _ _ Hrun). by rewrite E.
  - intros tr Hrun Hb Hid. apply GetByID_missing.
    destruct (users m !! id) as [user|] eqn:E; [|done]. exfalso.
    assert (id ∈ created_ids tr) as Hin
      by (apply (run_new_keys_created _ _ _ Hrun); by rewrite E).
    rewrite (run_new_created_ids _ _ Hrun Hb) in Hin.
    apply elem_of_seqZ in Hin. lia.
Qed.

(** C5 as the claim has it fails once the counter has wrapped.  [max_int]
    rounds of creating a record and deleting it take the counter of the
    new store to [min_int]; the record created next sits under [min_int],
    an id below 0 that [GetByID] finds. *)
Lemma GetByID_finds_negative_id_after_wrap :
  let tr := churn john 1 (Z.to_nat max_int)
            ++ [(OpCreate jane, ReplyUser (Ok (set_ID jane min_int)))] in
  let m := {| users := {[ min_int := set_ID jane min_int ]};
              nextID := min_int + 1 |} in
  run NewMemoryUserStore tr m
  /\ creates tr = max_int + 1
  /\ min_int <= 0
  /\ GetByID m min_int = (m, Ok (set_ID jane min_int)).
Proof.
  cbv zeta.
  destruct (churn_reaches john 1 max_int NewMemoryUserStore_in_range
              ltac:(discriminate)) as [Hrun Hc].
  change (wrap (1 + max_int)) with min_int in Hrun.
  split; [|split; [|split]].
  - eapply run_snoc; [exact Hrun|]. apply step_Create_to. reflexivity.
  - rewrite creates_app, Hc. reflexivity.
  - discriminate.
  - reflexivity.
Qed.

(** ** Ids are handed out in increasing order *)

(** C4, as the code has it.  In every run from the new store with fewer
    than [max_int] [Create] calls, the ids the [Create] calls return are
    strictly increasing in call order, hence pairwise distinct, the counter
    never decreases from one point of the run to a later one, and an id
    deleted earlier is not handed out later. *)
Theorem Create_ids_strictly_increase
    (tr1 tr2 : list (Op * Reply)) (m1 m2 : MemoryUserStore) :
  run NewMemoryUserStore tr1 m1 -> run m1 tr2 m2 ->
  creates tr1 + creates tr2 < max_int ->
  StronglySorted Z.lt (created_ids (tr1 ++ tr2))
  /\ NoDup (created_ids (tr1 ++ tr2))
  /\ nextID m1 <= nextID m2
  /\ (forall id, id ∈ deleted_ids tr1 -> id ∉ created_ids tr2).
Proof.
  intros Hrun1 Hrun2 Hb.
  pose proof (creates_nonneg tr1) as Hn1. pose proof (creates_nonneg tr2) as Hn2.
  pose proof (run_app _ _ _ _ _ Hrun1 Hrun2) as Hrun.
  assert (creates (tr1 ++ tr2) <= max_int) as Hb' by (rewrite creates_app; lia).
  rewrite (run_new_created_ids _ _ Hrun Hb').
  destruct (run_new_inv _ _ Hrun1 ltac:(lia)) as [Hinv1 Hc1].
  assert (nextID m2 = nextID m1 + creates tr2) as Hc2.
  { apply (run_counter _ _ _ Hrun2); int_lia. }
  split; [apply seqZ_StronglySorted|]. split; [apply NoDup_seqZ|].
  split; [lia|]. intros id Hdel Hcr.
  assert (id < nextID m1) as Hlt.
  { apply (run_deleted_below _ _ _ _ Hrun1 NewMemoryUserStore_inv);
      [simpl; lia | done]. }
  rewrite (run_created_ids _ _ _ Hrun2) in Hcr;
    [|int_lia | lia].
  apply elem_of_seqZ in Hcr. lia.
Qed.

(** C4 as the claim has it fails where the counter wraps.  [max_int - 1]
    rounds of creating a record and deleting it leave the counter of the
    new store at [max_int]; the next [Create] returns [max_int] and takes
    the counter down to [min_int], and the one after it returns [min_int],
    an id below the one before. *)
Lemma Create_ids_decrease_at_wrap :
  let tr := churn john 1 (Z.to_nat (max_int - 1)) in
  let m := {| users := ∅; nextID := max_int |} in
  let tr2 := [(OpCreate john, ReplyUser (Ok (set_ID john max_int)));
              (OpCreate jane, ReplyUser (Ok (set_ID jane min_int)))] in
  run NewMemoryUserStore tr m
  /\ creates tr = max_int - 1
  /\ (Create m john).2 = Ok (set_ID john max_int)
  /\ nextID (Create m john).1 = min_int
  /\ nextID (Create m john).1 < nextID m
  /\ (Create (Create m john).1 jane).2 = Ok (set_ID jane min_int)
  /\ min_int < max_int
  /\ run m tr2 (Create (Create m john).1 jane).1
  /\ created_ids (tr ++ tr2) = created_ids tr ++ [max_int; min_int]
  /\ ~ StronglySorted Z.lt (created_ids (tr ++ tr2)).
Proof.
  cbv zeta.
  destruct (churn_reaches john 1 (max_int - 1) NewMemoryUserStore_in_range
              ltac:(discriminate)) as [Hrun Hc].
  change (wrap (1 + (max_int - 1))) with max_int in Hrun.
  split; [exact Hrun|]. split; [exact Hc|].
  do 5 (split; [reflexivity|]). split; [|split].
  - eapply run_cons; [apply step_Create_to; reflexivity|].
    eapply run_cons; [apply step_Create_to; reflexivity | apply run_nil].
  - apply created_ids_app.
  - rewrite created_ids_app. intros Hs.
    apply StronglySorted_app_1_r in Hs.
    change (StronglySorted Z.lt [max_int; min_int]) in Hs.
    inversion Hs as [|? ? _ Hall]. inversion Hall as [|? ? Hlt _].
    discriminate Hlt.
Qed.

(** ** The keys and the counter *)

(** C10, as the code has it.  In every store reached from the new store a
    record sits under its own id; and as long as the run has fewer than
    [max_int] [Create] calls, every key [k] has [1 <= k < nextID], and a
    further call of any of the five operations keeps it so, provided the
    run with that call still has fewer than [max_int] [Create] calls. *)
Theorem keys_consistent_with_counter
    (tr : list (Op * Reply)) (m : MemoryUserStore) :
  run NewMemoryUserStore tr m ->
  ids_match m
  /\ (creates tr < max_int ->
      key_consistent m
      /\ 1 <= nextID m <= max_int
      /\ (forall o r m',
            step m o r m' -> creates (tr ++ [(o, r)]) < max_int ->
            key_consistent m')).
Proof.
  intros Hrun. split.
  - apply (run_ids_match _ _ _ Hrun). intros k user Hk. simpl in Hk.
    by rewrite lookup_empty in Hk.
  - intros Hb. destruct (run_new_inv _ _ Hrun Hb) as [[Hn Hk] _].
    split; [done|]. split; [done|]. intros o r m' Hstep Hb'.
    pose proof (run_snoc _ _ _ _ _ _ Hrun Hstep) as Hrun'.
    by destruct (run_new_inv _ _ Hrun' Hb') as [[_ Hk'] _].
Qed.

(** C10 as the claim has it fails where the counter wraps.  [max_int - 1]
    rounds of creating a record and deleting it leave an empty store,
    consistent, with the counter at [max_int]; one more [Create] puts a
    record under [max_int] and takes the counter to [min_int], which is not
    above that key. *)
Lemma key_above_counter_after_wrap :
  let tr := churn john 1 (Z.to_nat (max_int - 1)) in
  let m := {| users := ∅; nextID := max_int |} in
  let create := (OpCreate john, ReplyUser (Ok (set_ID john max_int))) in
  let m' := {| users := {[ max_int := set_ID john max_int ]};
               nextID := min_int |} in
  run NewMemoryUserStore tr m
  /\ creates tr = max_int - 1
  /\ key_consistent m
  /\ step m create.1 create.2 m'
  /\ run NewMemoryUserStore (tr ++ [create]) m'
  /\ creates (tr ++ [create]) = max_int
  /\ users m' !! max_int = Some (set_ID john max_int)
  /\ nextID m' = min_int
  /\ ~ key_consistent m'.
Proof.
  cbv zeta.
  destruct (churn_reaches john 1 (max_int - 1) NewMemoryUserStore_in_range
              ltac:(discriminate)) as [Hrun Hc].
  change (wrap (1 + (max_int - 1))) with max_int in Hrun.
  assert (step {| users := ∅; nextID := max_int |} (OpCreate john)
            (ReplyUser (Ok (set_ID john max_int)))
            {| users := {[ max_int := set_ID john max_int ]};
               nextID := min_int |}) as Hstep
    by (apply step_Create_to; reflexivity).
  split; [exact Hrun|]. split; [exact Hc|]. split.
  { intros k user H. simpl in H. by rewrite lookup_empty in H. }
  split; [exact Hstep|]. split; [exact (run_snoc _ _ _ _ _ _ Hrun Hstep)|].
  split; [rewrite creates_app, Hc; reflexivity|].
  split; [reflexivity|]. split; [reflexivity|]. intros Hcons.
  destruct (Hcons max_int (set_ID john max_int) eq_refl) as [[_ Hlt] _].
  discriminate Hlt.
Qed.

(** ** Delete *)

(** C3, as the code has it.  For every id, [Delete id] fails with
    [ErrNotFound] and leaves the store as it was when no record has that
    id; otherwise it removes that record and no other and returns no
    value.  After it, [GetByID id], [Update id _] and a second [Delete id]
    fail with [ErrNotFound]; and in a store run from new, as long as no
    more than [2^64] records are created in all, no later [Create] returns
    that id and the id stays absent. *)
Theorem Delete_is_final (m : MemoryUserStore) (id : Z) :
  (users m !! id = None -> Delete m id = (m, Err ErrNotFound))
  /\ (forall old, users m !! id = Some old ->
        let m' := {| users := delete id (users m); nextID := nextID m |} in
        Delete m id = (m', Ok tt)
        /\ (forall k, k <> id -> users m' !! k = users m !! k)
        /\ GetByID m' id = (m', Err ErrNotFound)
        /\ (forall candidate, Update m' id candidate = (m', Err ErrNotFound))
        /\ Delete m' id = (m', Err ErrNotFound)
        /\ (forall tr tr' m'',
              run NewMemoryUserStore tr m -> run m' tr' m'' ->
              creates tr + creates tr' <= modulus ->
              (id ∉ created_ids tr') /\ users m'' !! id = None)).
Proof.
  split; [apply Delete_missing|]. intros old Hold m'.
  assert (users m' !! id = None) as Hgone by (simpl; apply lookup_delete_eq).
  assert (Delete m id = (m', Ok tt)) as Hdel by apply (Delete_found _ _ _ Hold).
  split; [done|]. split; [intros k Hk; simpl; by apply lookup_delete_ne|].
  split; [by apply GetByID_missing|].
  split; [intros c; by apply Update_missing|].
  split; [by apply Delete_missing|].
  intros tr tr' m'' Hrun Hrun' Hb.
  assert (id ∉ created_ids tr') as Hfresh.
  { pose proof (step_Delete_to _ _ _ Hdel) as Hstep.
    pose proof (run_app _ _ _ _ _ Hrun (run_cons _ _ _ _ _ _ Hstep Hrun'))
      as Hwhole.
    assert (created_ids (tr ++ (OpDelete id, ReplyUnit (Ok tt)) :: tr')
            = created_ids tr ++ created_ids tr') as Hids
      by (by rewrite created_ids_app, created_ids_cons).
    pose proof (run_created_NoDup _ _ _ Hwhole NewMemoryUserStore_in_range)
      as Hnd.
    unfold creates in Hnd, Hb. rewrite Hids, length_app in Hnd.
    specialize (Hnd ltac:(lia)). apply NoDup_app in Hnd as (_ & Hdisj & _).
    apply Hdisj. apply (run_new_keys_created _ _ _ Hrun). by rewrite Hold. }
  split; [done|].
  destruct (users m'' !! id) as [user|] eqn:E; [|done]. exfalso.
  destruct (run_keys _ _ _ id Hrun' ltac:(by rewrite E)) as [H|H]; [|done].
  rewrite Hgone in H. by destruct H.
Qed.

(** C3 as the claim has it fails once the counter has come round.  The
    first record gets id 1 and is deleted; [2^64 - 1] rounds of creating a
    record and deleting it bring the counter back to 1, and the [Create]
    after them hands out id 1 again, so that [GetByID 1] finds a record. *)
Lemma deleted_id_reassigned_after_wrap :
  let tr := [(OpCreate john, ReplyUser (Ok (set_ID john 1)))] in
  let m := {| users := {[ 1 := set_ID john 1 ]}; nextID := 2 |} in
  let m' := {| users := ∅; nextID := 2 |} in
  let tr' := churn john 2 (Z.to_nat (modulus - 1))
             ++ [(OpCreate jane, ReplyUser (Ok (set_ID jane 1)))] in
  let m'' := {| users := {[ 1 := set_ID jane 1 ]}; nextID := 2 |} in
  run NewMemoryUserStore tr m
  /\ Delete m 1 = (m', Ok tt)
  /\ run m' tr' m''
  /\ creates tr + creates tr' = modulus + 1
  /\ 1 ∈ created_ids tr'
  /\ GetByID m'' 1 = (m'', Ok (set_ID jane 1)).
Proof.
  cbv zeta.
  assert (in_range 2) as Hr2 by (split; discriminate).
  destruct (churn_reaches john 2 (modulus - 1) Hr2 ltac:(discriminate))
    as [Hrun' Hc'].
  change (wrap (2 + (modulus - 1))) with 1 in Hrun'.
  split; [|split; [|split; [|split; [|split]]]].
  - eapply run_cons; [apply step_Create_to; reflexivity | apply run_nil].
  - reflexivity.
  - eapply run_snoc; [exact Hrun'|]. apply step_Create_to. reflexivity.
  - rewrite creates_app, Hc'. reflexivity.
  - rewrite created_ids_app. apply elem_of_app. right. apply list_elem_of_here.
  - reflexivity.
Qed.

(** ** Read all *)

Lemma ids_of_entries (m : MemoryUserStore) (entries : list (Z * User)) :
  ids_match m -> range_of (users m) entries ->
  ID <$> entries.*2 = entries.*1.
Proof.
  intros Hm Hent. rewrite <- list_fmap_compose. apply list_fmap_ext.
  intros i [k user] Hi. simpl. apply Hm. apply elem_of_map_to_list.
  unfold range_of in Hent. rewrite <- Hent. by eapply list_elem_of_lookup_2.
Qed.

(** C6.  [GetAll] never fails.  Whatever the store and whatever order
    [range] presents its map in, it leaves the store as it was and returns
    the records of the store, each once: a list of as many records as the
    map has, empty when the map is empty.  After a run from the new store
    that created [N] records and deleted none, [N] being an [int] as every
    length in Go is, the list has [N] records and their ids are the [N]
    ids the [Create] calls returned. *)
Theorem GetAll_returns_current_records
    (m : MemoryUserStore) (entries : list (Z * User)) :
  range_of (users m) entries ->
  exists l,
    GetAll m entries = (m, Ok l)
    /\ l ≡ₚ (map_to_list (users m)).*2
    /\ (forall user, user ∈ l <-> exists k, users m !! k = Some user)
    /\ length l = size (users m)
    /\ (users m = ∅ -> l = [])
    /\ (forall tr,
          run NewMemoryUserStore tr m -> deleted_ids tr = [] ->
          in_range (creates tr) ->
          Z.of_nat (length l) = creates tr
          /\ ID <$> l ≡ₚ created_ids tr
          /\ (forall id, id ∈ created_ids tr <-> exists user, user ∈ l /\ ID user = id)).
Proof.
  intros Hent. exists (entries.*2). unfold GetAll. rewrite collect_values.
  pose proof Hent as Hperm. unfold range_of in Hperm.
  assert (forall user, user ∈ entries.*2 <-> exists k, users m !! k = Some user)
    as Hmem.
  { intros user. rewrite list_elem_of_fmap. split.
    - intros ([k u] & -> & Hin). exists k. apply elem_of_map_to_list.
      by rewrite <- Hperm.
    - intros [k Hk]. exists (k, user). split; [done|]. rewrite Hperm.
      by apply elem_of_map_to_list. }
  assert (length entries.*2 = size (users m)) as Hlen.
  { rewrite length_fmap, Hperm. apply length_map_to_list. }
  split; [done|]. split; [by rewrite Hperm|]. split; [done|].
  split; [done|]. split.
  { intros Hempty. rewrite Hempty, map_to_list_empty in Hperm.
    apply Permutation_nil_r in Hperm. by rewrite Hperm. }
  intros tr Hrun Hnodel [_ Hb].
  pose proof (run_dom_no_delete _ _ _ Hrun Hnodel) as Hdom. simpl in Hdom.
  rewrite dom_empty_L, (left_id_L ∅ (∪)) in Hdom.
  assert (NoDup (created_ids tr)) as Hnd
    by (rewrite (run_new_created_ids _ _ Hrun Hb); apply NoDup_seqZ).
  assert (ids_match m) as Hm.
  { apply (run_ids_match _ _ _ Hrun). intros k user Hk. simpl in Hk.
    by rewrite lookup_empty in Hk. }
  assert (ID <$> entries.*2 ≡ₚ created_ids tr) as Hids.
  { rewrite (ids_of_entries m entries Hm Hent). apply NoDup_Permutation.
    - rewrite Hperm. apply NoDup_fst_map_to_list.
    - done.
    - intros k.
      rewrite Hperm, <- (elem_of_list_to_set (C:=gset Z) k (created_ids tr)).
      rewrite <- Hdom.
      rewrite elem_of_dom. split.
      + intros Hin. apply list_elem_of_fmap in Hin as ([k' u] & -> & Hin).
        apply elem_of_map_to_list in Hin. simpl. by rewrite Hin.
      + intros [u Hu]. apply list_elem_of_fmap. exists (k, u).
        split; [done|]. by apply elem_of_map_to_list. }
  split; [|split; [done|]].
  - unfold creates. rewrite <- Hids. by rewrite !length_fmap.
  - intros id. rewrite <- Hids, list_elem_of_fmap. naive_solver.
Qed.

End contract.

(** * Further laws of the store *)

Section laws.
Import GoInt.
Implicit Types (m : MemoryUserStore) (tr : list (Op * Reply)).

Lemma deleted_ids_app tr1 tr2 :
  deleted_ids (tr1 ++ tr2) = deleted_ids tr1 ++ deleted_ids tr2.
Proof. unfold deleted_ids. apply omap_app. Qed.

Lemma run_snoc_inv m tr o r m2 :
  run m (tr ++ [(o, r)]) m2 -> exists m1, run m tr m1 /\ step m1 o r m2.
Proof.
  intros H. apply run_app_inv in H as (m1 & H1 & H2). exists m1.
  split; [done|]. inversion H2 as [|? ? ? ? ? ? Hstep Hnil]; subst.
  by inversion Hnil; subst.
Qed.

(** The map grows by one with each [Create] that hands out a fresh id and
    shrinks by one with each [Delete] that succeeds. *)
Lemma run_new_size tr :
  forall m, run NewMemoryUserStore tr m -> NoDup (created_ids tr) ->
  Z.of_nat (size (users m))
  = creates tr - Z.of_nat (length (deleted_ids tr)).
Proof.
  induction tr as [|[o r] tr IH] using rev_ind; intros m Hrun Hnd.
  - inversion Hrun; subst. simpl. by rewrite map_size_empty.
  - apply run_snoc_inv in Hrun as (m1 & Hrun & Hstep).
    rewrite created_ids_app in Hnd. apply NoDup_app in Hnd as (Hnd & Hfresh & _).
    specialize (IH m1 Hrun Hnd).
    rewrite creates_app, deleted_ids_app, length_app, Nat2Z.inj_add.
    destruct Hstep as [entries Hent|id|user|id user|id].
    + simpl. unfold creates in *. simpl. lia.
    + rewrite GetByID_store. unfold creates in *. simpl. lia.
    + assert (users m1 !! nextID m1 = None) as Hnone.
      { destruct (users m1 !! nextID m1) as [old|] eqn:E; [|done]. exfalso.
        assert (nextID m1 ∈ created_ids tr) as Hin
          by (apply (run_new_keys_created _ _ _ Hrun); by rewrite E).
        apply (Hfresh _ Hin). apply list_elem_of_here. }
      simpl. rewrite (map_size_insert_None _ _ _ Hnone).
      unfold creates in *. simpl. lia.
    + unfold Update, creates in *. destruct (users m1 !! id) as [old|] eqn:E;
        simpl; [|lia].
      rewrite map_size_insert_Some by (by rewrite E). lia.
    + unfold Delete, creates in *. destruct (users m1 !! id) as [old|] eqn:E;
        simpl; [|lia].
      rewrite map_size_delete_Some by (by rewrite E).
      pose proof (map_size_ne_0_lookup_2 (users m1) id ltac:(by rewrite E)).
      lia.
Qed.

(** X1. After every run from the new store the counter stands at one more
    than the number of [Create] calls of the run, reduced to the range of
    [int]; it is exactly that number plus one as long as there were fewer
    than [max_int] of them. *)
Theorem counter_counts_creates tr m :
  run NewMemoryUserStore tr m ->
  nextID m = wrap (1 + creates tr)
  /\ in_range (nextID m)
  /\ (creates tr < max_int -> nextID m = 1 + creates tr).
Proof.
  intros Hrun. split; [|split].
  - apply (run_counter_wrap _ _ _ Hrun), NewMemoryUserStore_in_range.
  - apply (run_in_range _ _ _ Hrun), NewMemoryUserStore_in_range.
  - intros Hb. apply (run_counter _ _ _ Hrun); simpl; int_lia.
Qed.

(** X2. The [i]-th [Create] of a run from the new store, counting from 0,
    returns the id [1 + i] reduced to the range of [int]; no id is
    returned twice within the first [2^64] of them. *)
Theorem ids_distinct_until_counter_comes_round tr m :
  run NewMemoryUserStore tr m ->
  created_ids tr = (fun i => wrap (1 + i)) <$> seqZ 0 (creates tr)
  /\ (creates tr <= modulus -> NoDup (created_ids tr)).
Proof.
  intros Hrun. split.
  - apply (run_created_ids_wrap _ _ _ Hrun), NewMemoryUserStore_in_range.
  - apply (run_created_NoDup _ _ _ Hrun), NewMemoryUserStore_in_range.
Qed.

(** X3. After a run from the new store with at most [2^64] [Create] calls,
    the map holds as many records as the run has [Create] calls less its
    successful [Delete] calls, and that many [GetAll] returns. *)
Theorem size_is_creates_less_deletes tr m entries :
  run NewMemoryUserStore tr m -> creates tr <= modulus ->
  range_of (users m) entries ->
  Z.of_nat (size (users m)) = creates tr - Z.of_nat (length (deleted_ids tr))
  /\ exists l,
       (GetAll m entries).2 = Ok l
       /\ Z.of_nat (length l)
          = creates tr - Z.of_nat (length (deleted_ids tr)).
Proof.
  intros Hrun Hb Hent.
  assert (Z.of_nat (size (users m))
          = creates tr - Z.of_nat (length (deleted_ids tr))) as Hsize.
  { apply (run_new_size _ _ Hrun).
    apply (run_created_NoDup _ _ _ Hrun NewMemoryUserStore_in_range Hb). }
  split; [done|]. exists (entries.*2). simpl. rewrite collect_values.
  split; [done|]. rewrite <- Hsize. f_equal. unfold range_of in Hent.
  rewrite length_fmap, Hent. apply length_map_to_list.
Qed.

(** X4. An [Update] that succeeds is read back: [GetByID] at the same id
    right after returns the record [Update] returned, and [GetByID] at any
    other id returns what it returned before. *)
Theorem Update_then_GetByID m id candidate m' updated :
  Update m id candidate = (m', Ok updated) ->
  GetByID m' id = (m', Ok updated)
  /\ updated = {| ID := id; Name := Name candidate; Email := Email candidate |}
  /\ (forall k, k <> id -> (GetByID m' k).2 = (GetByID m k).2).
Proof.
  unfold Update. destruct (users m !! id) as [old|] eqn:E; [|done].
  intros [= <- <-]. split; [|split; [done|]].
  - apply GetByID_found. simpl. apply lookup_insert_eq.
  - intros k Hk. unfold GetByID. simpl. rewrite lookup_insert_ne by done.
    by destruct (users m !! k).
Qed.

(** The id the next [Create] will hand out is free, until the counter has
    come round. *)
Lemma run_new_next_free tr m :
  run NewMemoryUserStore tr m -> creates tr < modulus ->
  users m !! nextID m = None.
Proof.
  intros Hrun Hb.
  pose proof (run_snoc _ _ _ _ _ _ Hrun (step_Create m john)) as Hrun1.
  pose proof (run_created_NoDup _ _ _ Hrun1 NewMemoryUserStore_in_range) as Hnd.
  rewrite creates_app, created_ids_app in Hnd.
  change (creates [(OpCreate john, ReplyUser (Create m john).2)]) with 1 in Hnd.
  change (created_ids [(OpCreate john, ReplyUser (Create m john).2)])
    with [nextID m] in Hnd.
  specialize (Hnd ltac:(lia)). apply NoDup_app in Hnd as (_ & Hfresh & _).
  destruct (users m !! nextID m) as [old|] eqn:E; [|done]. exfalso.
  apply (Hfresh (nextID m)); [|apply list_elem_of_here].
  apply (run_new_keys_created _ _ _ Hrun). by rewrite E.
Qed.

(** X5. In a store run from new in which fewer than [2^64] records have
    been created, [Create] never overwrites: the id it hands out was free,
    every record there before is still there, unchanged, under its id, the
    map has one record more, and deleting the new record again gives back
    the records as they were, though not the counter. *)
Theorem Create_takes_a_free_id tr m user :
  run NewMemoryUserStore tr m -> creates tr < modulus ->
  let m1 := (Create m user).1 in
  users m !! nextID m = None
  /\ (forall k old, users m !! k = Some old -> users m1 !! k = Some old)
  /\ size (users m1) = Datatypes.S (size (users m))
  /\ users (Delete m1 (nextID m)).1 = users m
  /\ nextID (Delete m1 (nextID m)).1 = incr (nextID m).
Proof.
  intros Hrun Hb m1. pose proof (run_new_next_free _ _ Hrun Hb) as Hfree.
  split; [done|]. split; [|split; [|split]].
  - intros k old Hk. simpl. rewrite lookup_insert_ne; [done|].
    intros <-. by rewrite Hfree in Hk.
  - simpl. by apply map_size_insert_None.
  - rewrite (Delete_found m1 _ (set_ID user (nextID m)))
      by (simpl; apply lookup_insert_eq).
    simpl. rewrite delete_insert_eq. by apply delete_id.
  - by rewrite Delete_nextID.
Qed.

(** X6. In a store run from new, what [GetAll] lists is what [GetByID]
    finds: a record is in the list exactly when [GetByID] at its id
    returns it, and no two records of the list have the same id. *)
Theorem GetAll_lists_what_GetByID_finds tr m entries :
  run NewMemoryUserStore tr m -> range_of (users m) entries ->
  exists l,
    (GetAll m entries).2 = Ok l
    /\ (forall user, user ∈ l <-> GetByID m (ID user) = (m, Ok user))
    /\ NoDup (ID <$> l).
Proof.
  intros Hrun Hent. exists (entries.*2). simpl. rewrite collect_values.
  assert (ids_match m) as Hm.
  { apply (run_ids_match _ _ _ Hrun). intros k user Hk. simpl in Hk.
    by rewrite lookup_empty in Hk. }
  split; [done|]. split.
  - intros user. unfold range_of in Hent. rewrite list_elem_of_fmap. split.
    + intros ([k u] & -> & Hin). rewrite Hent in Hin.
      apply elem_of_map_to_list in Hin. simpl. apply GetByID_found.
      by rewrite (Hm _ _ Hin).
    + unfold GetByID. destruct (users m !! ID user) as [u|] eqn:E; [|done].
      intros [= ->]. exists (ID user, user). split; [done|]. rewrite Hent.
      by apply elem_of_map_to_list.
  - rewrite (ids_of_entries m entries Hm Hent). unfold range_of in Hent.
    rewrite Hent. apply NoDup_fst_map_to_list.
Qed.

(** X7. Of two [Update] calls on the id of a record the second wins: the
    store and the result are those of the second call alone; the ids in
    use and the counter are as they were before both. *)
Theorem Update_twice m id first second old :
  users m !! id = Some old ->
  Update (Update m id first).1 id second = Update m id second
  /\ dom (users (Update m id second).1) = dom (users m)
  /\ nextID (Update m id second).1 = nextID m.
Proof.
  intros Hold. rewrite !(Update_found _ _ _ _ Hold). simpl. split; [|split].
  - rewrite (Update_found _ _ _ (set_ID first id))
      by (simpl; apply lookup_insert_eq).
    simpl. by rewrite insert_insert_eq.
  - apply dom_insert_lookup_L. by rewrite Hold.
  - done.
Qed.

Lemma call_on_id m o id :
  op_id o = Some id ->
  nextID (call m o).1 = nextID m
  /\ (forall k, k <> id -> users (call m o).1 !! k = users m !! k)
  /\ (forall m', nextID m' = nextID m -> users m' !! id = users m !! id ->
        (call m' o).2 = (call m o).2
        /\ users (call m' o).1 !! id = users (call m o).1 !! id).
Proof.
  destruct o as [|id0|user|id0 user|id0]; simpl; intros [= <-].
  - rewrite GetByID_store. split; [done|]. split; [done|].
    intros m' _ Hsame. rewrite GetByID_store. unfold GetByID.
    rewrite Hsame. by destruct (users m !! id0).
  - unfold Update. split; [by destruct (users m !! id0)|]. split.
    + intros k Hk. destruct (users m !! id0); [|done]. simpl.
      by rewrite lookup_insert_ne.
    + intros m' _ Hsame. rewrite Hsame.
      destruct (users m !! id0) eqn:E; simpl;
        [by rewrite !lookup_insert_eq | split; [done | congruence]].
  - unfold Delete. split; [by destruct (users m !! id0)|]. split.
    + intros k Hk. destruct (users m !! id0); [|done]. simpl.
      by rewrite lookup_delete_ne.
    + intros m' _ Hsame. rewrite Hsame.
      destruct (users m !! id0) eqn:E; simpl;
        [by rewrite !lookup_delete_eq | split; [done | congruence]].
Qed.

(** X20. Calls about different ids do not interfere: of two calls among
    [GetByID], [Update] and [Delete] that name different ids, each returns
    what it returns when made alone, and the store they leave is the same
    in either order. *)
Theorem calls_on_different_ids_commute m o1 o2 id1 id2 :
  op_id o1 = Some id1 -> op_id o2 = Some id2 -> id1 <> id2 ->
  (call (call m o1).1 o2).2 = (call m o2).2
  /\ (call (call m o2).1 o1).2 = (call m o1).2
  /\ (call (call m o1).1 o2).1 = (call (call m o2).1 o1).1.
Proof.
  intros H1 H2 Hne.
  destruct (call_on_id m o1 id1 H1) as (Hn1 & Hframe1 & Hat1).
  destruct (call_on_id m o2 id2 H2) as (Hn2 & Hframe2 & Hat2).
  destruct (Hat2 (call m o1).1 Hn1 (Hframe1 id2 ltac:(done))) as [Hr2 Hu2].
  destruct (Hat1 (call m o2).1 Hn2 (Hframe2 id1 ltac:(done))) as [Hr1 Hu1].
  split; [done|]. split; [done|].
  destruct (call_on_id (call m o1).1 o2 id2 H2) as (Hn12 & Hframe12 & _).
  destruct (call_on_id (call m o2).1 o1 id1 H1) as (Hn21 & Hframe21 & _).
  destruct (call (call m o1).1 o2).1 as [u12 n12] eqn:E12.
  destruct (call (call m o2).1 o1).1 as [u21 n21] eqn:E21.
  simpl in *. f_equal; [|congruence]. apply map_eq. intros k.
  destruct (decide (k = id1)) as [->|Hk1].
  - rewrite Hframe12 by done. by rewrite Hu1.
  - destruct (decide (k = id2)) as [->|Hk2].
    + rewrite Hframe21 by done. by rewrite Hu2.
    + rewrite Hframe12, Hframe21, Hframe1, Hframe2 by done. done.
Qed.

End laws.

(** * The handlers on the in-memory store *)

(** One case of a handler: the status is one of the five, an error status
    comes with the store as it was, and so does a reading handler. *)
Ltac http_case :=
  simpl; split; [set_solver|];
  split;
  [ first [ done
          | let Hge := fresh in
            intros Hge;
            unfold StatusOK, StatusCreated, StatusNoContent in Hge; lia ]
  | first [ done | by intros [|] ] ].

Section http.
Import GoInt.
Variable Atoi : string -> result Z.
Variable order : gmap Z User -> list (Z * User).
Implicit Types (m : MemoryUserStore) (c : GinContext).

#[local] Abbreviation h := (memoryHandler order).

Lemma GetUsers_memory m c :
  GetUsers _ h m c = (m, c_JSON StatusOK (JSONUsers (order (users m)).*2)).
Proof. unfold GetUsers. simpl. by rewrite collect_values. Qed.

Lemma GetUser_memory m c :
  GetUser _ Atoi h m c =
    match Atoi (Param c "id") with
    | Err _ => (m, invalid_user_id)
    | Ok id =>
        match users m !! id with
        | Some user => (m, c_JSON StatusOK (JSONUser user))
        | None => (m, user_not_found)
        end
    end.
Proof.
  unfold GetUser. destruct (Atoi (Param c "id")) as [id|err]; [|done].
  simpl. unfold GetByID. by destruct (users m !! id).
Qed.

Lemma CreateUser_memory m c :
  CreateUser _ h m c =
    match ShouldBindJSON c with
    | Err err =>
        (m, c_JSON StatusBadRequest (JSONError {| Error := Error_text err |}))
    | Ok user =>
        ((Create m user).1,
         c_JSON StatusCreated (JSONUser (set_ID user (nextID m))))
    end.
Proof. unfold CreateUser. by destruct (ShouldBindJSON c). Qed.

Lemma UpdateUser_memory m c :
  UpdateUser _ Atoi h m c =
    match Atoi (Param c "id") with
    | Err _ => (m, invalid_user_id)
    | Ok id =>
        match ShouldBindJSON c with
        | Err err =>
            (m, c_JSON StatusBadRequest
                  (JSONError {| Error := Error_text err |}))
        | Ok user =>
            match users m !! id with
            | Some _ =>
                ({| users := <[id := set_ID user id]> (users m);
                    nextID := nextID m |},
                 c_JSON StatusOK (JSONUser (set_ID user id)))
            | None => (m, user_not_found)
            end
        end
    end.
Proof.
  unfold UpdateUser. destruct (Atoi (Param c "id")) as [id|err]; [|done].
  destruct (ShouldBindJSON c) as [user|err]; [|done].
  simpl. unfold Update. by destruct (users m !! id).
Qed.

Lemma DeleteUser_memory m c :
  DeleteUser _ Atoi h m c =
    match Atoi (Param c "id") with
    | Err _ => (m, invalid_user_id)
    | Ok id =>
        match users m !! id with
        | Some _ =>
            ({| users := delete id (users m); nextID := nextID m |},
             c_Status StatusNoContent)
        | None => (m, user_not_found)
        end
    end.
Proof.
  unfold DeleteUser. destruct (Atoi (Param c "id")) as [id|err]; [|done].
  simpl. unfold Delete. by destruct (users m !! id).
Qed.

(** X8. On the in-memory store a handler answers with 200, 201, 204, 400 or
    404 and never with 500; the two reading handlers leave the store as it
    was, and so does every handler whose answer is an error (400 or
    above). *)
Theorem error_response_leaves_store m (request : Endpoint * GinContext) :
  let out := serve Atoi h m request in
  Code out.2 ∈ [StatusOK; StatusCreated; StatusNoContent;
                StatusBadRequest; StatusNotFound]
  /\ (400 <= Code out.2 -> out.1 = m)
  /\ (request.1 = GET_users \/ request.1 = GET_users_id -> out.1 = m).
Proof.
  destruct request as [endpoint c]. unfold serve. simpl.
  destruct endpoint.
  - rewrite GetUsers_memory. http_case.
  - rewrite GetUser_memory. destruct (Atoi (Param c "id")) as [id|err];
      [destruct (users m !! id)|]; http_case.
  - rewrite CreateUser_memory. destruct (ShouldBindJSON c) as [user|err];
      http_case.
  - rewrite UpdateUser_memory. destruct (Atoi (Param c "id")) as [id|err];
      [destruct (ShouldBindJSON c) as [user|err];
         [destruct (users m !! id)|]|]; http_case.
  - rewrite DeleteUser_memory. destruct (Atoi (Param c "id")) as [id|err];
      [destruct (users m !! id)|]; http_case.
Qed.

(** X9. A record created over HTTP is read back over HTTP: when
    [CreateUser] answers 201, the body bound to a user, the response
    carries that user's name and email under the id the counter stood at,
    and [GetUser] with a path that reads as that id answers 200 with the
    same record. *)
Theorem POST_then_GET m c m1 response :
  CreateUser _ h m c = (m1, response) -> Code response = StatusCreated ->
  exists user created,
    ShouldBindJSON c = Ok user
    /\ created = {| ID := nextID m; Name := Name user; Email := Email user |}
    /\ response = c_JSON StatusCreated (JSONUser created)
    /\ (forall c', Atoi (Param c' "id") = Ok (ID created) ->
          GetUser _ Atoi h m1 c' = (m1, c_JSON StatusOK (JSONUser created))).
Proof.
  rewrite CreateUser_memory. destruct (ShouldBindJSON c) as [user|err].
  - intros [= <- <-] _. exists user, (set_ID user (nextID m)).
    split; [done|]. split; [done|]. split; [done|]. intros c' Hid.
    rewrite GetUser_memory, Hid. simpl. by rewrite lookup_insert_eq.
  - intros [= <- <-]. done.
Qed.


(** X11. A record updated over HTTP is read back over HTTP under the id of
    the path: when [UpdateUser] answers 200, the record in the response has
    the name and email of the body and the id the path reads as, whatever
    id the body carries; [GetUser] with the same path answers with the same
    response, and with a path that reads as another id it answers as it
    did before the update. *)
Theorem PUT_then_GET m c m1 response :
  UpdateUser _ Atoi h m c = (m1, response) -> Code response = StatusOK ->
  exists id user,
    Atoi (Param c "id") = Ok id
    /\ ShouldBindJSON c = Ok user
    /\ is_Some (users m !! id)
    /\ response =
         c_JSON StatusOK
           (JSONUser {| ID := id; Name := Name user; Email := Email user |})
    /\ GetUser _ Atoi h m1 c = (m1, response)
    /\ (forall c' id', Atoi (Param c' "id") = Ok id' -> id' <> id ->
          (GetUser _ Atoi h m1 c').2 = (GetUser _ Atoi h m c').2).
Proof.
  rewrite UpdateUser_memory.
  destruct (Atoi (Param c "id")) as [id|err] eqn:Hid; [|by intros [= <- <-]].
  destruct (ShouldBindJSON c) as [user|err]; [|by intros [= <- <-]].
  destruct (users m !! id) as [old|] eqn:Hold; [|by intros [= <- <-]].
  intros [= <- <-] _. exists id, user. repeat (split; [done|]). split.
  - rewrite GetUser_memory, Hid. simpl. by rewrite lookup_insert_eq.
  - intros c' id' Hid' Hne. rewrite !GetUser_memory, Hid'. simpl.
    rewrite lookup_insert_ne by done. by destruct (users m !! id').
Qed.

Hypothesis order_ok : forall users, range_of users (order users).

Lemma serve_step m (request : Endpoint * GinContext) :
  exists tr,
    run m tr (serve Atoi h m request).1
    /\ (length tr <= 1)%nat
    /\ created_ids tr
       = match response_created_id (serve Atoi h m request).2 with
         | Some id => [id]
         | None => []
         end.
Proof.
  destruct request as [endpoint c]. unfold serve. simpl.
  destruct endpoint.
  - rewrite GetUsers_memory.
    exists [(OpGetAll, ReplyUsers (GetAll m (order (users m))).2)].
    split; [|(split; [simpl; lia | reflexivity])]. eapply run_cons; [|apply run_nil].
    apply (step_GetAll m (order (users m))), order_ok.
  - rewrite GetUser_memory. destruct (Atoi (Param c "id")) as [id|err].
    + exists [(OpGetByID id, ReplyUser (GetByID m id).2)]. split.
      * eapply run_cons; [|apply run_nil].
        pose proof (step_GetByID m id) as Hs. rewrite GetByID_store in Hs.
        destruct (users m !! id); exact Hs.
      * destruct (users m !! id); (split; [simpl; lia | reflexivity]).
    + exists []. split; [apply run_nil | (split; [simpl; lia | reflexivity])].
  - rewrite CreateUser_memory. destruct (ShouldBindJSON c) as [user|err].
    + exists [(OpCreate user, ReplyUser (Create m user).2)]. split; [|(split; [simpl; lia | reflexivity])].
      eapply run_cons; [apply step_Create | apply run_nil].
    + exists []. split; [apply run_nil | (split; [simpl; lia | reflexivity])].
  - rewrite UpdateUser_memory. destruct (Atoi (Param c "id")) as [id|err].
    + destruct (ShouldBindJSON c) as [user|err].
      * exists [(OpUpdate id user, ReplyUser (Update m id user).2)].
        pose proof (step_Update m id user) as Hs. unfold Update in *.
        destruct (users m !! id); (split; [|(split; [simpl; lia | reflexivity])]);
          (eapply run_cons; [exact Hs | apply run_nil]).
      * exists []. split; [apply run_nil | (split; [simpl; lia | reflexivity])].
    + exists []. split; [apply run_nil | (split; [simpl; lia | reflexivity])].
  - rewrite DeleteUser_memory. destruct (Atoi (Param c "id")) as [id|err].
    + exists [(OpDelete id, ReplyUnit (Delete m id).2)].
      pose proof (step_Delete m id) as Hs. unfold Delete in *.
      destruct (users m !! id); (split; [|(split; [simpl; lia | reflexivity])]);
        (eapply run_cons; [exact Hs | apply run_nil]).
    + exists []. split; [apply run_nil | (split; [simpl; lia | reflexivity])].
Qed.

(** X12. Serving a sequence of requests on the in-memory store is a run of
    the store: each request makes one call of the store or, when its path
    or body is rejected, none; every request gets a response; and the ids
    the run's [Create] calls returned are, in order, the ids of the
    records in the 201 responses. *)
Theorem requests_are_runs (requests : list (Endpoint * GinContext)) m :
  let out := serve_all Atoi h m requests in
  exists tr,
    run m tr out.1
    /\ (length tr <= length requests)%nat
    /\ length out.2 = length requests
    /\ created_ids tr = omap response_created_id out.2.
Proof.
  revert m. induction requests as [|request requests IH]; intros m; simpl.
  - exists []. split; [apply run_nil | done].
  - destruct (serve_step m request) as (tr1 & Hrun1 & Hlen1 & Hids1).
    destruct (serve Atoi h m request) as [m1 response]. simpl in *.
    destruct (IH m1) as (tr2 & Hrun2 & Hlen2 & Hresp & Hids2).
    destruct (serve_all Atoi h m1 requests) as [m2 responses]. simpl in *.
    exists (tr1 ++ tr2). split; [by eapply run_app|].
    split; [rewrite length_app; lia|]. split; [by rewrite Hresp|].
    rewrite created_ids_app, Hids1, Hids2.
    by destruct (response_created_id response).
Qed.

(** X13. In a store run from new, every record in the list [GetUsers]
    answers with (always with 200, and with each record of the store
    once) is the record [GetUser] answers with, under 200, for a path that
    reads as the id of that record. *)
Theorem GET_users_lists_what_GET_user_finds tr m c :
  run NewMemoryUserStore tr m ->
  exists l,
    GetUsers _ h m c = (m, c_JSON StatusOK (JSONUsers l))
    /\ l ≡ₚ (map_to_list (users m)).*2
    /\ (forall user c', user ∈ l -> Atoi (Param c' "id") = Ok (ID user) ->
          GetUser _ Atoi h m c' = (m, c_JSON StatusOK (JSONUser user))).
Proof.
  intros Hrun. exists ((order (users m)).*2). rewrite GetUsers_memory.
  pose proof (order_ok (users m)) as Hperm. unfold range_of in Hperm.
  split; [done|]. split; [by rewrite Hperm|]. intros user c' Hin Hid.
  assert (ids_match m) as Hm.
  { apply (run_ids_match _ _ _ Hrun). intros k u Hk. simpl in Hk.
    by rewrite lookup_empty in Hk. }
  apply list_elem_of_fmap in Hin as ([k u] & -> & Hin). rewrite Hperm in Hin.
  apply elem_of_map_to_list in Hin. simpl in *.
  rewrite GetUser_memory, Hid, (Hm _ _ Hin). simpl. by rewrite Hin.
Qed.

End http.

(** * The configuration *)

(** Membership in a list written out. *)
Ltac in_list :=
  solve [ repeat first [ apply list_elem_of_here | apply list_elem_of_further ] ].

Section configuration.
Import config.
Implicit Types (os : Host) (cfg : Config).

(** The five steps of [loadFromEnv], each on the configuration the one
    before it left. *)
Let set_environment os cfg : Config :=
  if decide (Getenv os "GO_ENV" <> "") then
    {| Config_Environment := Getenv os "GO_ENV";
       Config_Server := Config_Server cfg;
       Config_Database := Config_Database cfg;
       Config_Logging := Config_Logging cfg |}
  else cfg.

Let set_address os cfg : Config :=
  if decide (Getenv os "SERVER_ADDRESS" <> "") then
    {| Config_Environment := Config_Environment cfg;
       Config_Server :=
         {| Server_Address := Getenv os "SERVER_ADDRESS";
            Server_Port := Server_Port (Config_Server cfg) |};
       Config_Database := Config_Database cfg;
       Config_Logging := Config_Logging cfg |}
  else cfg.

Let set_db_type os cfg : Config :=
  if decide (Getenv os "DB_TYPE" <> "") then
    {| Config_Environment := Config_Environment cfg;
       Config_Server := Config_Server cfg;
       Config_Database :=
         {| Database_Type := Getenv os "DB_TYPE";
            Database_Host := Database_Host (Config_Database cfg);
            Database_Port := Database_Port (Config_Database cfg);
            Database_Name := Database_Name (Config_Database cfg);
            Database_User := Database_User (Config_Database cfg);
            Database_Password := Database_Password (Config_Database cfg) |};
       Config_Logging := Config_Logging cfg |}
  else cfg.

Let set_db_host os cfg : Config :=
  if decide (Getenv os "DB_HOST" <> "") then
    {| Config_Environment := Config_Environment cfg;
       Config_Server := Config_Server cfg;
       Config_Database :=
         {| Database_Type := Database_Type (Config_Database cfg);
            Database_Host := Getenv os "DB_HOST";
            Database_Port := Database_Port (Config_Database cfg);
            Database_Name := Database_Name (Config_Database cfg);
            Database_User := Database_User (Config_Database cfg);
            Database_Password := Database_Password (Config_Database cfg) |};
       Config_Logging := Config_Logging cfg |}
  else cfg.

Let set_log_level os cfg : Config :=
  if decide (Getenv os "LOG_LEVEL" <> "") then
    {| Config_Environment := Config_Environment cfg;
       Config_Server := Config_Server cfg;
       Config_Database := Config_Database cfg;
       Config_Logging :=
         {| Logging_Level := Getenv os "LOG_LEVEL";
            Logging_Format := Logging_Format (Config_Logging cfg) |} |}
  else cfg.

Lemma loadFromEnv_steps os cfg :
  loadFromEnv os cfg =
    set_log_level os
      (set_db_host os (set_db_type os (set_address os (set_environment os cfg)))).
Proof. reflexivity. Qed.

(** What one step does to the parts of a configuration. *)
Ltac step_parts step :=
  unfold step, env_or; repeat case_decide; simpl; try done; congruence.

(** The settings of a configuration after [loadFromEnv], one by one. *)
Lemma loadFromEnv_settings os cfg :
  let cfg' := loadFromEnv os cfg in
  Config_Environment cfg' = env_or os "GO_ENV" (Config_Environment cfg)
  /\ Server_Address (Config_Server cfg')
     = env_or os "SERVER_ADDRESS" (Server_Address (Config_Server cfg))
  /\ Database_Type (Config_Database cfg')
     = env_or os "DB_TYPE" (Database_Type (Config_Database cfg))
  /\ Database_Host (Config_Database cfg')
     = env_or os "DB_HOST" (Database_Host (Config_Database cfg))
  /\ Logging_Level (Config_Logging cfg')
     = env_or os "LOG_LEVEL" (Logging_Level (Config_Logging cfg))
  /\ Server_Port (Config_Server cfg') = Server_Port (Config_Server cfg)
  /\ Database_Port (Config_Database cfg') = Database_Port (Config_Database cfg)
  /\ Database_Name (Config_Database cfg') = Database_Name (Config_Database cfg)
  /\ Database_User (Config_Database cfg') = Database_User (Config_Database cfg)
  /\ Database_Password (Config_Database cfg')
     = Database_Password (Config_Database cfg)
  /\ Logging_Format (Config_Logging cfg') = Logging_Format (Config_Logging cfg).
Proof.
  cbv zeta. rewrite loadFromEnv_steps.
  assert (forall c,
            Config_Environment (set_environment os c)
            = env_or os "GO_ENV" (Config_Environment c)
            /\ Config_Server (set_environment os c) = Config_Server c
            /\ Config_Database (set_environment os c) = Config_Database c
            /\ Config_Logging (set_environment os c) = Config_Logging c) as H1
    by (intros c; repeat split; step_parts set_environment).
  assert (forall c,
            Config_Environment (set_address os c) = Config_Environment c
            /\ Server_Address (Config_Server (set_address os c))
               = env_or os "SERVER_ADDRESS" (Server_Address (Config_Server c))
            /\ Server_Port (Config_Server (set_address os c))
               = Server_Port (Config_Server c)
            /\ Config_Database (set_address os c) = Config_Database c
            /\ Config_Logging (set_address os c) = Config_Logging c) as H2
    by (intros c; repeat split; step_parts set_address).
  assert (forall c,
            Config_Environment (set_db_type os c) = Config_Environment c
            /\ Config_Server (set_db_type os c) = Config_Server c
            /\ Database_Type (Config_Database (set_db_type os c))
               = env_or os "DB_TYPE" (Database_Type (Config_Database c))
            /\ Database_Host (Config_Database (set_db_type os c))
               = Database_Host (Config_Database c)
            /\ Database_Port (Config_Database (set_db_type os c))
               = Database_Port (Config_Database c)
            /\ Database_Name (Config_Database (set_db_type os c))
               = Database_Name (Config_Database c)
            /\ Database_User (Config_Database (set_db_type os c))
               = Database_User (Config_Database c)
            /\ Database_Password (Config_Database (set_db_type os c))
               = Database_Password (Config_Database c)
            /\ Config_Logging (set_db_type os c) = Config_Logging c) as H3
    by (intros c; repeat split; step_parts set_db_type).
  assert (forall c,
            Config_Environment (set_db_host os c) = Config_Environment c
            /\ Config_Server (set_db_host os c) = Config_Server c
            /\ Database_Type (Config_Database (set_db_host os c))
               = Database_Type (Config_Database c)
            /\ Database_Host (Config_Database (set_db_host os c))
               = env_or os "DB_HOST" (Database_Host (Config_Database c))
            /\ Database_Port (Config_Database (set_db_host os c))
               = Database_Port (Config_Database c)
            /\ Database_Name (Config_Database (set_db_host os c))
               = Database_Name (Config_Database c)
            /\ Database_User (Config_Database (set_db_host os c))
               = Database_User (Config_Database c)
            /\ Database_Password (Config_Database (set_db_host os c))
               = Database_Password (Config_Database c)
            /\ Config_Logging (set_db_host os c) = Config_Logging c) as H4
    by (intros c; repeat split; step_parts set_db_host).
  assert (forall c,
            Config_Environment (set_log_level os c) = Config_Environment c
            /\ Config_Server (set_log_level os c) = Config_Server c
            /\ Config_Database (set_log_level os c) = Config_Database c
            /\ Logging_Level (Config_Logging (set_log_level os c))
               = env_or os "LOG_LEVEL" (Logging_Level (Config_Logging c))
            /\ Logging_Format (Config_Logging (set_log_level os c))
               = Logging_Format (Config_Logging c)) as H5
    by (intros c; repeat split; step_parts set_log_level).
  generalize (set_environment os cfg) (H1 cfg). intros c1 (E1 & S1 & D1 & L1).
  generalize (set_address os c1) (H2 c1). intros c2 (E2 & A2 & P2 & D2 & L2).
  generalize (set_db_type os c2) (H3 c2).
  intros c3 (E3 & S3 & T3 & Ho3 & Po3 & N3 & U3 & W3 & L3).
  generalize (set_db_host os c3) (H4 c3).
  intros c4 (E4 & S4 & T4 & Ho4 & Po4 & N4 & U4 & W4 & L4).
  generalize (set_log_level os c4) (H5 c4). intros c5 (E5 & S5 & D5 & Lv5 & F5).
  repeat split; congruence.
Qed.

Lemma env_or_idem os name old :
  env_or os name (env_or os name old) = env_or os name old.
Proof. unfold env_or. by case_decide. Qed.

Lemma Config_ext cfg1 cfg2 :
  Config_Environment cfg1 = Config_Environment cfg2 ->
  Server_Address (Config_Server cfg1) = Server_Address (Config_Server cfg2) ->
  Server_Port (Config_Server cfg1) = Server_Port (Config_Server cfg2) ->
  Database_Type (Config_Database cfg1) = Database_Type (Config_Database cfg2) ->
  Database_Host (Config_Database cfg1) = Database_Host (Config_Database cfg2) ->
  Database_Port (Config_Database cfg1) = Database_Port (Config_Database cfg2) ->
  Database_Name (Config_Database cfg1) = Database_Name (Config_Database cfg2) ->
  Database_User (Config_Database cfg1) = Database_User (Config_Database cfg2) ->
  Database_Password (Config_Database cfg1)
  = Database_Password (Config_Database cfg2) ->
  Logging_Level (Config_Logging cfg1) = Logging_Level (Config_Logging cfg2) ->
  Logging_Format (Config_Logging cfg1) = Logging_Format (Config_Logging cfg2) ->
  cfg1 = cfg2.
Proof.
  destruct cfg1 as [e1 [a1 p1] [t1 h1 dp1 n1 u1 w1] [l1 f1]].
  destruct cfg2 as [e2 [a2 p2] [t2 h2 dp2 n2 u2 w2] [l2 f2]].
  simpl. by intros -> -> -> -> -> -> -> -> -> -> ->.
Qed.

(** X14. [getConfigFile] prefers the file of the environment ([GO_ENV], or
    "development" when that is empty) to "configs/config.yaml", takes a
    file unless [os.Stat] says it does not exist, and returns the empty
    string exactly when it says so of both; a path it returns is never one
    [os.Stat] reported as not existing. *)
Theorem getConfigFile_prefers_environment os :
  let env :=
    if decide (Getenv os "GO_ENV" = "") then "development"
    else Getenv os "GO_ENV" in
  let specific := "configs/config." +:+ env +:+ ".yaml" in
  let fallback := "configs/config.yaml" in
  (Stat os specific <> StatNotExist -> getConfigFile os = specific)
  /\ (Stat os specific = StatNotExist -> Stat os fallback <> StatNotExist ->
      getConfigFile os = fallback)
  /\ (getConfigFile os = ""
      <-> Stat os specific = StatNotExist /\ Stat os fallback = StatNotExist)
  /\ (getConfigFile os <> "" -> Stat os (getConfigFile os) <> StatNotExist).
Proof.
  cbv zeta. unfold getConfigFile.
  set (specific := "configs/config." +:+ _ +:+ ".yaml").
  assert (specific <> "") as Hne by (subst specific; simpl; discriminate).
  destruct (Stat os specific) eqn:Hs; simpl;
    try (repeat split; try done; try (by intros [? _]); by rewrite Hs).
  destruct (Stat os "configs/config.yaml") eqn:Hf; simpl;
    repeat split; try done; try (by intros [_ ?]); by rewrite Hf.
Qed.

(** X15. [loadFromEnv] lets each of [GO_ENV], [SERVER_ADDRESS], [DB_TYPE],
    [DB_HOST] and [LOG_LEVEL] replace its setting when it is not empty and
    leaves the setting alone when it is; it never touches the ports, the
    database name, user and password or the log format; and applying it a
    second time changes nothing. *)
Theorem loadFromEnv_overrides os cfg :
  let cfg' := loadFromEnv os cfg in
  Config_Environment cfg' = env_or os "GO_ENV" (Config_Environment cfg)
  /\ Server_Address (Config_Server cfg')
     = env_or os "SERVER_ADDRESS" (Server_Address (Config_Server cfg))
  /\ Database_Type (Config_Database cfg')
     = env_or os "DB_TYPE" (Database_Type (Config_Database cfg))
  /\ Database_Host (Config_Database cfg')
     = env_or os "DB_HOST" (Database_Host (Config_Database cfg))
  /\ Logging_Level (Config_Logging cfg')
     = env_or os "LOG_LEVEL" (Logging_Level (Config_Logging cfg))
  /\ Server_Port (Config_Server cfg') = Server_Port (Config_Server cfg)
  /\ Database_Port (Config_Database cfg') = Database_Port (Config_Database cfg)
  /\ Database_Name (Config_Database cfg') = Database_Name (Config_Database cfg)
  /\ Database_User (Config_Database cfg') = Database_User (Config_Database cfg)
  /\ Database_Password (Config_Database cfg')
     = Database_Password (Config_Database cfg)
  /\ Logging_Format (Config_Logging cfg') = Logging_Format (Config_Logging cfg)
  /\ loadFromEnv os cfg' = cfg'.
Proof.
  cbv zeta.
  destruct (loadFromEnv_settings os cfg)
    as (E & A & T & Ho & Lv & P & DP & N & U & W & F).
  repeat (split; [assumption|]).
  destruct (loadFromEnv_settings os (loadFromEnv os cfg))
    as (E' & A' & T' & Ho' & Lv' & P' & DP' & N' & U' & W' & F').
  apply Config_ext; try assumption.
  - by rewrite E', E, env_or_idem.
  - by rewrite A', A, env_or_idem.
  - by rewrite T', T, env_or_idem.
  - by rewrite Ho', Ho, env_or_idem.
  - by rewrite Lv', Lv, env_or_idem.
Qed.

Lemma Load_eq os :
  Load os =
    if decide (getConfigFile os <> "") then
      match loadFromFile os defaults (getConfigFile os) with
      | (_, Some err) => Err (Errorf_w "failed to load config file: " err)
      | (cfg, None) => Ok (loadFromEnv os cfg)
      end
    else Ok (loadFromEnv os defaults).
Proof.
  unfold Load. case_decide; [|done].
  by destruct (loadFromFile os defaults (getConfigFile os)) as [cfg [err|]].
Qed.

(** What [Load] returns has been through [loadFromEnv]. *)
Lemma Load_from_env os cfg :
  Load os = Ok cfg -> exists fromFile, cfg = loadFromEnv os fromFile.
Proof.
  rewrite Load_eq. intros Hload. case_decide; [|by inversion Hload; eauto].
  destruct (loadFromFile os defaults (getConfigFile os)) as [c [e|]]; [done|].
  inversion Hload. eauto.
Qed.

(** X16. [Load] fails only over a config file: when [getConfigFile] finds
    none, [Load] succeeds with the defaults as the environment overrides
    them, the very defaults when the five variables are empty; when [Load]
    fails, a file was chosen, [filepath.Abs], [os.ReadFile] or
    [yaml.Unmarshal] failed on it, and the error reads "failed to load
    config file: " followed by the text of theirs. *)
Theorem Load_fails_only_on_config_file os :
  (getConfigFile os = "" ->
     Load os = Ok (loadFromEnv os defaults)
     /\ ((forall name, name ∈ overriding -> Getenv os name = "") ->
         Load os = Ok defaults))
  /\ (forall err, Load os = Err err ->
        getConfigFile os <> ""
        /\ exists cause,
             (loadFromFile os defaults (getConfigFile os)).2 = Some cause
             /\ Error_text err
                = "failed to load config file: " +:+ Error_text cause).
Proof.
  rewrite Load_eq. split.
  - intros Hnone. rewrite decide_False by (by intros ?). split; [done|].
    intros Hempty. f_equal.
    destruct (loadFromEnv_settings os defaults)
      as (E & A & T & Ho & Lv & P & DP & N & U & W & F).
    assert (forall name old, name ∈ overriding -> env_or os name old = old)
      as Hkeep.
    { intros name old Hin. unfold env_or. by rewrite (Hempty name Hin). }
    rewrite Hkeep in E, A, T, Ho, Lv by (unfold overriding; in_list).
    by apply Config_ext.
  - intros err. case_decide as Hfile; [|done].
    destruct (loadFromFile os defaults (getConfigFile os)) as [cfg [cause|]];
      [|done].
    intros [= <-]. split; [done|]. by exists cause.
Qed.

(** X17. The environment wins over the config file: whenever [Load]
    succeeds, each of the five settings whose variable is not empty has
    the value of the variable, whatever the file held and whatever
    [yaml.Unmarshal] made of it. *)
Theorem Load_environment_wins os cfg :
  Load os = Ok cfg ->
  (Getenv os "GO_ENV" <> "" -> Config_Environment cfg = Getenv os "GO_ENV")
  /\ (Getenv os "SERVER_ADDRESS" <> "" ->
      Server_Address (Config_Server cfg) = Getenv os "SERVER_ADDRESS")
  /\ (Getenv os "DB_TYPE" <> "" ->
      Database_Type (Config_Database cfg) = Getenv os "DB_TYPE")
  /\ (Getenv os "DB_HOST" <> "" ->
      Database_Host (Config_Database cfg) = Getenv os "DB_HOST")
  /\ (Getenv os "LOG_LEVEL" <> "" ->
      Logging_Level (Config_Logging cfg) = Getenv os "LOG_LEVEL").
Proof.
  intros Hload. destruct (Load_from_env _ _ Hload) as [fromFile ->].
  destruct (loadFromEnv_settings os fromFile) as (E & A & T & Ho & Lv & _).
  rewrite E, A, T, Ho, Lv. unfold env_or.
  repeat split; intros Hset; by rewrite decide_False.
Qed.

End configuration.

(** * The application *)

Section application.
Import GoInt config app.
Variable Atoi : string -> result Z.
Variable order : gmap Z User -> list (Z * User).

(** The route with a given handler in a list of routes written out. *)
Ltac find_route :=
  eexists (mkRoute _ _ _); (split; [|reflexivity]); in_list.

Lemma New_eq os :
  New os order =
    match Load os with
    | Err err => Err err
    | Ok cfg =>
        Ok {| App_Config := cfg;
              App_Router := setupRouter (memoryHandler order) cfg;
              App_UserStore := seeded;
              App_UserHandler := memoryHandler order |}
    end.
Proof. unfold New. by destruct (Load os). Qed.

(** X18. [New] fails exactly when [Load] fails, with the error of [Load].
    When it succeeds the store holds John Doe under id 1 and Jane Smith
    under id 2 with the counter at 3, and the router has the five user
    routes and the health route.  The swagger route is registered exactly
    when the environment of the configuration is not "production", and gin
    is put in release mode exactly when it is; with [GO_ENV] set to
    "production" that is so whatever the config file says. *)
Theorem New_hides_swagger_in_production os :
  (forall err, New os order = Err err <-> Load os = Err err)
  /\ (forall application,
        New os order = Ok application ->
        let cfg := App_Config application in
        let router := App_Router application in
        let store := App_UserStore application in
        Load os = Ok cfg
        /\ GetByID store 1
           = (store, Ok {| ID := 1; Name := "John Doe";
                           Email := "john@example.com" |})
        /\ GetByID store 2
           = (store, Ok {| ID := 2; Name := "Jane Smith";
                           Email := "jane@example.com" |})
        /\ size (users store) = 2%nat
        /\ nextID store = 3
        /\ (forall endpoint,
              exists route,
                route ∈ Routes router
                /\ Route_Handler route = UserRoute endpoint)
        /\ {| Route_Method := "GET"; Route_Path := "/health";
              Route_Handler := HealthRoute |} ∈ Routes router
        /\ (Config_Environment cfg <> "production"
            <-> exists route,
                  route ∈ Routes router /\ Route_Handler route = SwaggerRoute)
        /\ (Config_Environment cfg = "production"
            <-> ReleaseMode router = true)
        /\ (Getenv os "GO_ENV" = "production" ->
            ReleaseMode router = true
            /\ forall route,
                 route ∈ Routes router -> Route_Handler route <> SwaggerRoute)).
Proof.
  rewrite New_eq. split.
  - intros err. destruct (Load os) as [cfg|err']; [done|].
    split; by intros [= ->].
  - intros application. destruct (Load os) as [cfg|err'] eqn:Hload; [|done].
    intros [= <-]. simpl. split; [done|]. do 4 (split; [reflexivity|]).
    assert (Getenv os "GO_ENV" = "production" ->
            Config_Environment cfg = "production") as Henv.
    { intros Hprod. destruct (Load_from_env _ _ Hload) as [fromFile ->].
      destruct (loadFromEnv_settings os fromFile) as (E & _).
      rewrite E. unfold env_or. by rewrite Hprod. }
    unfold setupRouter. simpl.
    destruct (decide (Config_Environment cfg = "production")) as [Hp|Hp].
    + rewrite decide_False by (by intros ?). simpl.
      split; [intros []; find_route|].
      split; [in_list|]. split.
      { split; [done|]. intros (route & Hin & Hh). exfalso.
        repeat (apply elem_of_cons in Hin as [->|Hin]; [done|]).
        by apply elem_of_nil in Hin. }
      split; [done|]. intros _. split; [done|]. intros route Hin Hh.
      repeat (apply elem_of_cons in Hin as [->|Hin]; [done|]).
      by apply elem_of_nil in Hin.
    + rewrite decide_True by done. simpl.
      split; [intros []; find_route|].
      split; [in_list|]. split.
      { split; [|done]. intros _. find_route. }
      split; [done|]. intros Hprod. by destruct (Hp (Henv Hprod)).
Qed.

Hypothesis order_ok : forall users, range_of users (order users).

(** X19. On a newly started application the ids handed out over HTTP
    follow those of the two seeded records: over any sequence of requests
    with [n] 201 responses in all, [n + 2] being an [int], the records in
    the 201 responses carry, in the order of the responses, the ids 3, 4,
    ... [n + 2]. *)
Theorem created_ids_after_startup os application
    (requests : list (Endpoint * GinContext)) :
  New os order = Ok application ->
  let out :=
    serve_all Atoi (App_UserHandler application)
      (App_UserStore application) requests in
  let ids := omap response_created_id out.2 in
  Z.of_nat (length ids) + 2 <= max_int ->
  ids = seqZ 3 (Z.of_nat (length ids)).
Proof.
  rewrite New_eq. destruct (Load os) as [cfg|err]; [|done].
  intros [= <-]. simpl.
  destruct (requests_are_runs Atoi order order_ok requests seeded)
    as (tr & Hrun & _ & _ & Hids).
  rewrite <- Hids. intros Hb.
  pose proof (play_run NewMemoryUserStore [OpCreate john; OpCreate jane])
    as Hseed.
  pose proof (run_app _ _ _ _ _ Hseed Hrun) as Hwhole.
  pose proof (run_new_created_ids _ _ Hwhole) as Hall.
  rewrite creates_app, created_ids_app in Hall.
  change (creates (play NewMemoryUserStore [OpCreate john; OpCreate jane]).1)
    with 2 in Hall.
  change (created_ids
            (play NewMemoryUserStore [OpCreate john; OpCreate jane]).1)
    with [1; 2] in Hall.
  unfold creates in Hall. specialize (Hall ltac:(lia)).
  rewrite (seqZ_app 1 2) in Hall by lia.
  change (seqZ 1 2) with [1; 2] in Hall. by apply app_inv_head in Hall.
Qed.

End application.

(** * The contract at work

    The scenarios of the store's tests, run on the embedding, and the
    theorems above applied to concrete runs. *)

Section scenarios.
Import GoInt.

Example scenario_create_john :
  (Create NewMemoryUserStore john).2
  = Ok {| ID := 1; Name := "John Doe"; Email := "john@example.com" |}.
Proof. reflexivity. Qed.

Example scenario_get_second_and_missing :
  GetByID seeded 2
  = (seeded, Ok {| ID := 2; Name := "Jane Smith"; Email := "jane@example.com" |})
  /\ GetByID seeded 999 = (seeded, Err ErrNotFound)
  /\ GetByID seeded 0 = (seeded, Err ErrNotFound)
  /\ GetByID seeded (-1) = (seeded, Err ErrNotFound).
Proof. repeat split. Qed.

Example scenario_delete_then_get :
  let m := (play NewMemoryUserStore [OpCreate john; OpDelete 1]).2 in
  GetByID m 1 = (m, Err ErrNotFound)
  /\ GetAll m (map_to_list (users m)) = (m, Ok []).
Proof. split; reflexivity. Qed.

Example scenario_update :
  let m := (Create NewMemoryUserStore john).1 in
  (Update m 1 {| ID := 7; Name := "New"; Email := "new@x.com" |}).2
  = Ok {| ID := 1; Name := "New"; Email := "new@x.com" |}
  /\ Update m 42 jane = (m, Err ErrNotFound).
Proof. split; reflexivity. Qed.

Example scenario_supplied_id_ignored :
  (Create NewMemoryUserStore {| ID := 999; Name := "X"; Email := "y@z.com" |}).2
  = Ok {| ID := 1; Name := "X"; Email := "y@z.com" |}.
Proof. reflexivity. Qed.

Example scenario_sessions :
  created_ids (play NewMemoryUserStore (session1 ++ session2)).1 = [1; 2; 3; 4]
  /\ deleted_ids (play NewMemoryUserStore (session1 ++ session2)).1 = [1]
  /\ nextID (play NewMemoryUserStore (session1 ++ session2)).2 = 5.
Proof. repeat split. Qed.

Lemma Create_then_GetByID_witness :
  Create NewMemoryUserStore john
  = ((Create NewMemoryUserStore john).1, Ok (set_ID john 1))
  /\ exists got,
       GetByID (Create NewMemoryUserStore john).1 (ID (set_ID john 1))
       = ((Create NewMemoryUserStore john).1, Ok got)
       /\ Name got = Name john /\ Email got = Email john
       /\ ID got = ID (set_ID john 1) /\ got = set_ID john 1.
Proof.
  split; [reflexivity|].
  destruct (Create_then_GetByID NewMemoryUserStore john) as [_ Hget].
  apply Hget. reflexivity.
Defined.

Lemma failed_call_changes_nothing_witness :
  Update seeded 42 jane = (seeded, Err ErrNotFound)
  /\ users seeded = users seeded /\ nextID seeded = nextID seeded
  /\ ErrNotFound = ErrNotFound /\ users seeded !! 42 = None.
Proof.
  split; [reflexivity|].
  apply (failed_call_changes_nothing seeded 42 jane). right. left. reflexivity.
Defined.

Lemma Create_ids_strictly_increase_witness :
  let tr1 := (play NewMemoryUserStore session1).1 in
  let m1 := (play NewMemoryUserStore session1).2 in
  let tr2 := (play m1 session2).1 in
  let m2 := (play m1 session2).2 in
  creates tr1 + creates tr2 < max_int
  /\ created_ids (tr1 ++ tr2) = [1; 2; 3; 4]
  /\ StronglySorted Z.lt (created_ids (tr1 ++ tr2))
  /\ NoDup (created_ids (tr1 ++ tr2))
  /\ nextID m1 <= nextID m2
  /\ (forall id, id ∈ deleted_ids tr1 -> id ∉ created_ids tr2).
Proof.
  cbv zeta. split; [vm_compute; reflexivity|]. split; [vm_compute; reflexivity|].
  apply Create_ids_strictly_increase;
    [apply play_run | apply play_run | vm_compute; reflexivity].
Defined.

Lemma keys_consistent_with_counter_witness :
  creates (play NewMemoryUserStore session1).1 < max_int
  /\ ids_match (play NewMemoryUserStore session1).2
  /\ key_consistent (play NewMemoryUserStore session1).2
  /\ 1 <= nextID (play NewMemoryUserStore session1).2 <= max_int.
Proof.
  assert (creates (play NewMemoryUserStore session1).1 < max_int) as Hb
    by (vm_compute; reflexivity).
  destruct (keys_consistent_with_counter _ _
              (play_run NewMemoryUserStore session1)) as [Hids Hk].
  destruct (Hk Hb) as (Hcons & Hn & _).
  exact (conj Hb (conj Hids (conj Hcons Hn))).
Defined.

Lemma GetAll_returns_current_records_witness :
  range_of (users seeded) (map_to_list (users seeded))
  /\ exists l,
       GetAll seeded (map_to_list (users seeded)) = (seeded, Ok l)
       /\ length l = 2%nat
       /\ ID <$> l ≡ₚ [1; 2].
Proof.
  assert (range_of (users seeded) (map_to_list (users seeded))) as Hent
    by (unfold range_of; reflexivity).
  split; [exact Hent|].
  destruct (GetAll_returns_current_records seeded _ Hent)
    as (l & Hget & _ & _ & Hlen & _ & Hrun).
  destruct (Hrun _ (play_run NewMemoryUserStore [OpCreate john; OpCreate jane])
              ltac:(reflexivity)
              ltac:(split; vm_compute; discriminate))
    as (_ & Hids & _).
  exists l. split; [exact Hget|]. split; [exact Hlen|]. exact Hids.
Defined.

Lemma counter_counts_creates_witness :
  nextID (play NewMemoryUserStore (session1 ++ session2)).2 = 5
  /\ creates (play NewMemoryUserStore (session1 ++ session2)).1 = 4
  /\ in_range (nextID (play NewMemoryUserStore (session1 ++ session2)).2).
Proof.
  destruct (counter_counts_creates _ _
              (play_run NewMemoryUserStore (session1 ++ session2)))
    as (_ & Hr & Hc).
  split; [exact (Hc ltac:(vm_compute; reflexivity))|].
  split; [reflexivity | exact Hr].
Defined.

Lemma ids_distinct_until_counter_comes_round_witness :
  created_ids (play NewMemoryUserStore (session1 ++ session2)).1 = [1; 2; 3; 4]
  /\ NoDup (created_ids (play NewMemoryUserStore (session1 ++ session2)).1).
Proof.
  destruct (ids_distinct_until_counter_comes_round _ _
              (play_run NewMemoryUserStore (session1 ++ session2)))
    as [_ Hnd].
  split; [reflexivity|]. apply Hnd. vm_compute. discriminate.
Defined.

Lemma size_is_creates_less_deletes_witness :
  let out := play NewMemoryUserStore (session1 ++ session2) in
  creates out.1 = 4
  /\ length (deleted_ids out.1) = 1%nat
  /\ Z.of_nat (size (users out.2)) = 4 - Z.of_nat 1.
Proof.
  cbv zeta. split; [reflexivity|]. split; [reflexivity|].
  destruct (size_is_creates_less_deletes _ _
              (map_to_list (users (play NewMemoryUserStore (session1 ++ session2)).2))
              (play_run NewMemoryUserStore (session1 ++ session2))
              ltac:(vm_compute; discriminate)
              ltac:(unfold range_of; reflexivity)) as [Hsize _].
  exact Hsize.
Defined.

Lemma Update_then_GetByID_witness :
  let out := Update seeded 2 john in
  out.2 = Ok (set_ID john 2)
  /\ GetByID out.1 2 = (out.1, Ok (set_ID john 2)).
Proof.
  cbv zeta. split; [reflexivity|].
  apply (Update_then_GetByID seeded 2 john). reflexivity.
Defined.

Lemma Create_takes_a_free_id_witness :
  users seeded !! nextID seeded = None
  /\ size (users (Create seeded john).1) = 3%nat
  /\ users (Delete (Create seeded john).1 (nextID seeded)).1 = users seeded.
Proof.
  destruct (Create_takes_a_free_id _ _ john
              (play_run NewMemoryUserStore [OpCreate john; OpCreate jane])
              ltac:(vm_compute; reflexivity))
    as (Hfree & _ & Hsize & Hback & _).
  exact (conj Hfree (conj Hsize Hback)).
Defined.

Lemma GetAll_lists_what_GetByID_finds_witness :
  exists l,
    (GetAll seeded (map_to_list (users seeded))).2 = Ok l
    /\ (forall user, user ∈ l <-> GetByID seeded (ID user) = (seeded, Ok user))
    /\ NoDup (ID <$> l).
Proof.
  apply (GetAll_lists_what_GetByID_finds _ _ _
           (play_run NewMemoryUserStore [OpCreate john; OpCreate jane])).
  unfold range_of. reflexivity.
Defined.

Lemma Update_twice_witness :
  Update (Update seeded 2 john).1 2 jane = Update seeded 2 jane
  /\ dom (users (Update seeded 2 jane).1) = dom (users seeded)
  /\ nextID (Update seeded 2 jane).1 = nextID seeded.
Proof. apply (Update_twice seeded 2 john jane (set_ID jane 2)). reflexivity. Defined.

Lemma POST_then_GET_witness :
  exists user created,
    ShouldBindJSON (request_body "" john) = Ok user
    /\ created = {| ID := nextID seeded; Name := Name user; Email := Email user |}
    /\ c_JSON StatusCreated (JSONUser (set_ID john 3))
       = c_JSON StatusCreated (JSONUser created)
    /\ (forall c', Atoi_1_to_3 (Param c' "id") = Ok (ID created) ->
          GetUser _ Atoi_1_to_3 (memoryHandler map_to_list)
            (Create seeded john).1 c'
          = ((Create seeded john).1, c_JSON StatusOK (JSONUser created))).
Proof.
  apply (POST_then_GET Atoi_1_to_3 map_to_list seeded (request_body "" john));
    reflexivity.
Defined.


Lemma PUT_then_GET_witness :
  let c := request_body "2" {| ID := 7; Name := "New"; Email := "new@x.com" |} in
  let out := UpdateUser _ Atoi_1_to_3 (memoryHandler map_to_list) seeded c in
  out.2 = c_JSON StatusOK
            (JSONUser {| ID := 2; Name := "New"; Email := "new@x.com" |})
  /\ GetUser _ Atoi_1_to_3 (memoryHandler map_to_list) out.1 c = (out.1, out.2).
Proof.
  cbv zeta. split; [reflexivity|].
  destruct (PUT_then_GET Atoi_1_to_3 map_to_list seeded
              (request_body "2" {| ID := 7; Name := "New"; Email := "new@x.com" |})
              _ _ eq_refl eq_refl)
    as (id & user & _ & _ & _ & _ & Hget & _).
  exact Hget.
Defined.

Lemma requests_are_runs_witness :
  let requests :=
    [(POST_users, request_body "" john); (GET_users_id, request_path "x");
     (DELETE_users_id, request_path "1"); (POST_users, request_body "" jane);
     (GET_users, request_path "")] in
  let out := serve_all Atoi_1_to_3 (memoryHandler map_to_list) seeded requests in
  Code <$> out.2 = [201; 400; 204; 201; 200]
  /\ exists tr,
       run seeded tr out.1
       /\ (length tr <= length requests)%nat
       /\ length out.2 = length requests
       /\ created_ids tr = omap response_created_id out.2.
Proof.
  cbv zeta. split; [reflexivity|].
  apply (requests_are_runs Atoi_1_to_3 map_to_list).
  intros users. unfold range_of. reflexivity.
Defined.

Lemma GET_users_lists_what_GET_user_finds_witness :
  exists l,
    GetUsers _ (memoryHandler map_to_list) seeded (request_path "")
    = (seeded, c_JSON StatusOK (JSONUsers l))
    /\ l ≡ₚ (map_to_list (users seeded)).*2
    /\ (forall user c', user ∈ l -> Atoi_1_to_3 (Param c' "id") = Ok (ID user) ->
          GetUser _ Atoi_1_to_3 (memoryHandler map_to_list) seeded c'
          = (seeded, c_JSON StatusOK (JSONUser user))).
Proof.
  apply (GET_users_lists_what_GET_user_finds Atoi_1_to_3 map_to_list
           ltac:(intros users; unfold range_of; reflexivity)
           _ seeded (request_path "")
           (play_run NewMemoryUserStore [OpCreate john; OpCreate jane])).
Defined.

Lemma Load_environment_wins_witness :
  exists cfg,
    config.Load host_production = Ok cfg
    /\ config.Config_Environment cfg = "production"
    /\ config.Logging_Level (config.Config_Logging cfg) = "warn"
    /\ config.Server_Port (config.Config_Server cfg) = 9090.
Proof.
  eexists. split; [reflexivity|].
  destruct (Load_environment_wins host_production _ eq_refl)
    as (Henv & _ & _ & _ & Hlog).
  split; [exact (Henv ltac:(discriminate))|].
  split; [exact (Hlog ltac:(discriminate)) | reflexivity].
Defined.

Lemma created_ids_after_startup_witness :
  let requests :=
    [(POST_users, request_body "" john); (DELETE_users_id, request_path "3");
     (POST_users, request_body "" jane)] in
  exists application,
    app.New host_bare map_to_list = Ok application
    /\ omap response_created_id
         (serve_all Atoi_1_to_3 (app.App_UserHandler application)
            (app.App_UserStore application) requests).2
       = seqZ 3 2.
Proof.
  cbv zeta. eexists. split; [reflexivity|].
  etransitivity;
    [ apply (created_ids_after_startup Atoi_1_to_3 map_to_list
               ltac:(intros users; unfold range_of; reflexivity)
               host_bare _ _ eq_refl);
      vm_compute; discriminate
    | vm_compute; reflexivity ].
Defined.

Lemma calls_on_different_ids_commute_witness :
  let o1 := OpUpdate 1 jane in
  let o2 := OpDelete 2 in
  (call (call seeded o1).1 o2).2 = ReplyUnit (Ok tt)
  /\ (call (call seeded o1).1 o2).1 = (call (call seeded o2).1 o1).1.
Proof.
  cbv zeta. split; [reflexivity|].
  apply (calls_on_different_ids_commute seeded (OpUpdate 1 jane) (OpDelete 2)
           1 2 eq_refl eq_refl).
  discriminate.
Defined.

End scenarios.
